(** * The crawl-frontier and item-catalog datastore of db/mysql.go

    A shallow embedding of [SQLDatastore] and of the six operations it
    offers to the crawler: [GetNextNode], [SaveNodeUninitialized], [SaveNode],
    [AddUninitializedNodes], [GetNode] and [AddItemsForNode].

    - The two tables are finite maps from their primary key to the other
      columns of the row ([nodes.row], [items.row]).
    - Every SQL statement of the file is a function on the tables.
    - The operations are written in a small state and error monad over a
      connection: the committed tables, the working copy of the open
      transaction, and a counter of round trips to the engine. A fault
      oracle says which round trips fail, so that every early [return err]
      of the source is a path of the model.
    - Values are stored as they are given and keys compare as exact
      strings: the collation of the columns is the engine's business, and an
      [Exec] the engine refuses (a value too long for its column among
      them) is a fault of the oracle. The one statement that cannot be
      refused for a long value is the INSERT IGNORE of
      AddUninitializedNodes: it stores the id cut to the fifty characters
      of its column. *)

From Stdlib Require Import ZArith String Ascii List.
From stdpp Require Import gmap strings list fin_maps.

Local Open Scope Z_scope.
Local Open Scope string_scope.

(* ===================================================================== *)
(** ** Package crawling: the payloads handed to the store *)
(* ===================================================================== *)

(** Modelled from the spec: the type declarations of package [crawling] are
    not part of db/mysql.go. The fields are the ones the operations read
    ([n.ID], [n.Profile.Name], [items[i].Thumbnail.Tiny], ...); counters and
    amounts are integers, a rating is a decimal with two fractional digits,
    kept as its number of hundredths, and a time is a number of seconds. *)

Record Stats := {
  FollowerCount : Z;
  FollowingCount : Z;
  ListingCount : Z;
  PostCount : Z;
  RatingCount : Z;
  AverageRating : Z
}.

Record Profile := {
  Name : string;
  Handle : string;
  Location : string;
  Nsfw : bool;
  Vendor : bool;
  Moderator : bool;
  About : string;
  ShortDescription : string;
  ProfileStats : Stats
}.

Record Node := {
  ID : string;
  LastCrawled : Z;
  NodeProfile : Profile
}.

Record Thumbnail := {
  Tiny : string;
  Small : string;
  Medium : string
}.

Record Price := {
  Amount : Z;
  CurrencyCode : string
}.

Record Item := {
  Hash : string;
  Slug : string;
  Title : string;
  Description : string;
  ItemThumbnail : Thumbnail;
  Language : string;
  ItemPrice : Price;
  Categories : list string;
  NSFW : bool;
  ContractType : string;
  ItemAverageRating : Z
}.

(** Go's zero values: what [crawling.Node{}] holds before [Scan] fills it. *)
Definition zero_time : Z := -62135596800.

Definition zero_Stats : Stats :=
  {| FollowerCount := 0; FollowingCount := 0; ListingCount := 0;
     PostCount := 0; RatingCount := 0; AverageRating := 0 |}.

Definition zero_Profile : Profile :=
  {| Name := EmptyString; Handle := EmptyString; Location := EmptyString; Nsfw := false;
     Vendor := false; Moderator := false; About := EmptyString;
     ShortDescription := EmptyString; ProfileStats := zero_Stats |}.

Definition zero_Node : Node :=
  {| ID := EmptyString; LastCrawled := zero_time; NodeProfile := zero_Profile |}.

(* ===================================================================== *)
(** ** The schema of NewSQLDatastore *)
(* ===================================================================== *)

(** Table [nodes], keyed by [id]. A column that an INSERT of this file can
    leave out is nullable ([option]); [lastUpdated] is given by every INSERT,
    [listed] and [banned] have DEFAULT 0. *)
Module nodes.
Record row := {
  lastUpdated : Z;
  name : option string;
  handle : option string;
  location : option string;
  nsfw : option bool;
  vendor : option bool;
  moderator : option bool;
  about : option string;
  shortDescription : option string;
  followerCount : option Z;
  followingCount : option Z;
  listingCount : option Z;
  postCount : option Z;
  ratingCount : option Z;
  averageRating : option Z;
  listed : bool;
  banned : bool
}.

(** The row that [INSERT INTO nodes (id, lastUpdated)] creates. *)
Definition minimal (t : Z) : row :=
  {| lastUpdated := t; name := None; handle := None; location := None;
     nsfw := None; vendor := None; moderator := None; about := None;
     shortDescription := None; followerCount := None;
     followingCount := None; listingCount := None; postCount := None;
     ratingCount := None; averageRating := None;
     listed := false; banned := false |}.

(** [UPDATE lastUpdated = t]. *)
Definition set_lastUpdated (t : Z) (r : row) : row :=
  {| lastUpdated := t; name := name r; handle := handle r;
     location := location r; nsfw := nsfw r; vendor := vendor r;
     moderator := moderator r; about := about r;
     shortDescription := shortDescription r;
     followerCount := followerCount r;
     followingCount := followingCount r;
     listingCount := listingCount r; postCount := postCount r;
     ratingCount := ratingCount r; averageRating := averageRating r;
     listed := listed r; banned := banned r |}.
End nodes.

(** Table [items], keyed by [hash]. Every INSERT of this file gives all
    fourteen columns. *)
Module items.
Record row := {
  owner : string;
  slug : string;
  title : string;
  tags : string;
  description : string;
  thumbnail : string;
  language : string;
  priceAmount : Z;
  priceCurrency : string;
  categories : string;
  nsfw : bool;
  contractType : string;
  rating : Z
}.
End items.

Record DB := {
  tbl_nodes : gmap string nodes.row;
  tbl_items : gmap string items.row
}.

(** The state NewSQLDatastore leaves on a fresh engine: both tables exist and
    are empty. *)
Definition empty_DB : DB := {| tbl_nodes := ∅; tbl_items := ∅ |}.

(* ===================================================================== *)
(** ** SQL statements *)
(* ===================================================================== *)

(** [INSERT ... ON DUPLICATE KEY UPDATE ...]: a free key takes the inserted
    row, a taken key has the update clause applied to its row. *)
Definition insert_on_duplicate_key_update {R : Type}
    (k : string) (ins : R) (upd : R → R) (t : gmap string R) : gmap string R :=
  match t !! k with
  | None => <[k := ins]> t
  | Some r => <[k := upd r]> t
  end.

(** [INSERT IGNORE ...]: a taken key leaves the table as it is. *)
Definition insert_ignore {R : Type}
    (k : string) (ins : R) (t : gmap string R) : gmap string R :=
  match t !! k with
  | None => <[k := ins]> t
  | Some _ => t
  end.

(** [strings.Join]. *)
Fixpoint Join (elems : list string) (sep : string) : string :=
  match elems with
  | [] => EmptyString
  | e :: rest =>
      match rest with
      | [] => e
      | _ :: _ => e +:+ sep +:+ Join rest sep
      end
  end.

(** The literal '2000-01-01 00:00:00' of AddUninitializedNodes. *)
Definition never_crawled : Z := 946684800.

(** SaveNodeUninitialized:
    INSERT INTO nodes (id, lastUpdated) VALUES (?, NOW())
    ON DUPLICATE KEY UPDATE lastUpdated=NOW() *)
Definition stmt_touch_node (now : Z) (id : string) (db : DB) : DB :=
  {| tbl_nodes :=
       insert_on_duplicate_key_update id (nodes.minimal now)
         (nodes.set_lastUpdated now) (tbl_nodes db);
     tbl_items := tbl_items db |}.

(** SaveNode: the VALUES list of the INSERT. *)
Definition profile_row (now : Z) (n : Node) : nodes.row :=
  let p := NodeProfile n in
  let s := ProfileStats p in
  {| nodes.lastUpdated := now;
     nodes.name := Some (Name p);
     nodes.handle := Some (Handle p);
     nodes.location := Some (Location p);
     nodes.nsfw := Some (Nsfw p);
     nodes.vendor := Some (Vendor p);
     nodes.moderator := Some (Moderator p);
     nodes.about := Some (About p);
     nodes.shortDescription := Some (ShortDescription p);
     nodes.followerCount := Some (FollowerCount s);
     nodes.followingCount := Some (FollowingCount s);
     nodes.listingCount := Some (ListingCount s);
     nodes.postCount := Some (PostCount s);
     nodes.ratingCount := Some (RatingCount s);
     nodes.averageRating := Some (AverageRating s);
     nodes.listed := false;
     nodes.banned := false |}.

(** SaveNode: the ON DUPLICATE KEY UPDATE clause, fifteen assignments. *)
Definition profile_update (now : Z) (n : Node) (r : nodes.row) : nodes.row :=
  let p := NodeProfile n in
  let s := ProfileStats p in
  {| nodes.lastUpdated := now;
     nodes.name := Some (Name p);
     nodes.handle := Some (Handle p);
     nodes.location := Some (Location p);
     nodes.nsfw := Some (Nsfw p);
     nodes.vendor := Some (Vendor p);
     nodes.moderator := Some (Moderator p);
     nodes.about := Some (About p);
     nodes.shortDescription := Some (ShortDescription p);
     nodes.followerCount := Some (FollowerCount s);
     nodes.followingCount := Some (FollowingCount s);
     nodes.listingCount := Some (ListingCount s);
     nodes.postCount := Some (PostCount s);
     nodes.ratingCount := Some (RatingCount s);
     nodes.averageRating := Some (AverageRating s);
     nodes.listed := nodes.listed r;
     nodes.banned := nodes.banned r |}.

Definition stmt_save_node (now : Z) (n : Node) (db : DB) : DB :=
  {| tbl_nodes :=
       insert_on_duplicate_key_update (ID n) (profile_row now n)
         (profile_update now n) (tbl_nodes db);
     tbl_items := tbl_items db |}.

(** What a VARCHAR(w) column keeps of a value under IGNORE, which turns the
    error for a value longer than the column into a warning: the first [w]
    characters (the ids of nodes are ASCII, one character to a byte of the
    string). *)
Fixpoint varchar (w : nat) (s : string) : string :=
  match w, s with
  | S w', String a s' => String a (varchar w' s')
  | _, _ => EmptyString
  end.

(** [id VARCHAR(50) NOT NULL] of the nodes table. *)
Definition id_width : nat := 50.

Definition truncate_id (id : string) : string := varchar id_width id.

(** AddUninitializedNodes:
    INSERT IGNORE INTO nodes (id, lastUpdated)
    VALUES (?, '2000-01-01 00:00:00')
    The row goes under the id as the column keeps it, and it is that id the
    duplicate check is made on. *)
Definition stmt_enqueue_node (id : string) (db : DB) : DB :=
  {| tbl_nodes :=
       insert_ignore (truncate_id id) (nodes.minimal never_crawled)
         (tbl_nodes db);
     tbl_items := tbl_items db |}.

(** AddItemsForNode: DELETE FROM items WHERE owner = ? *)
Definition stmt_delete_items (o : string) (db : DB) : DB :=
  {| tbl_nodes := tbl_nodes db;
     tbl_items := filter (λ kv, items.owner kv.2 ≠ o) (tbl_items db) |}.

(** AddItemsForNode: the VALUES list of the INSERT. *)
Definition item_row (o : string) (it : Item) : items.row :=
  {| items.owner := o;
     items.slug := Slug it;
     items.title := Title it;
     items.tags := EmptyString;
     items.description := Description it;
     items.thumbnail :=
       Tiny (ItemThumbnail it) +:+ "," +:+ Small (ItemThumbnail it)
         +:+ "," +:+ Medium (ItemThumbnail it);
     items.language := Language it;
     items.priceAmount := Amount (ItemPrice it);
     items.priceCurrency := CurrencyCode (ItemPrice it);
     items.categories := Join (Categories it) ",";
     items.nsfw := NSFW it;
     items.contractType := ContractType it;
     items.rating := ItemAverageRating it |}.

(** AddItemsForNode: the ON DUPLICATE KEY UPDATE clause, twelve assignments;
    [owner] is not among them. *)
Definition item_update (it : Item) (r : items.row) : items.row :=
  {| items.owner := items.owner r;
     items.slug := Slug it;
     items.title := Title it;
     items.tags := EmptyString;
     items.description := Description it;
     items.thumbnail :=
       Tiny (ItemThumbnail it) +:+ "," +:+ Small (ItemThumbnail it)
         +:+ "," +:+ Medium (ItemThumbnail it);
     items.language := Language it;
     items.priceAmount := Amount (ItemPrice it);
     items.priceCurrency := CurrencyCode (ItemPrice it);
     items.categories := Join (Categories it) ",";
     items.nsfw := NSFW it;
     items.contractType := ContractType it;
     items.rating := ItemAverageRating it |}.

Definition stmt_upsert_item (o : string) (it : Item) (db : DB) : DB :=
  {| tbl_nodes := tbl_nodes db;
     tbl_items :=
       insert_on_duplicate_key_update (Hash it) (item_row o it)
         (item_update it) (tbl_items db) |}.

(** [ORDER BY lastUpdated ASC LIMIT 1] over the rows in the order the engine
    produces them: the first row among those with the least [lastUpdated]. *)
Fixpoint order_by_lastUpdated_limit_1 (rows : list (string * nodes.row))
    : option (string * nodes.row) :=
  match rows with
  | [] => None
  | r :: rest =>
      match order_by_lastUpdated_limit_1 rest with
      | None => Some r
      | Some m =>
          if (nodes.lastUpdated r.2 <=? nodes.lastUpdated m.2)%Z
          then Some r else Some m
      end
  end.

(** [SELECT id, lastUpdated FROM nodes ORDER BY lastUpdated ASC LIMIT 1],
    given the rows in the engine's order. *)
Definition select_next (rows : list (string * nodes.row)) : option (string * Z) :=
  (λ kr : string * nodes.row, (kr.1, nodes.lastUpdated kr.2))
    <$> order_by_lastUpdated_limit_1 rows.

(** [SELECT id, lastUpdated FROM nodes WHERE id=?] *)
Definition select_node (id : string) (db : DB) : option (string * Z) :=
  (λ r : nodes.row, (id, nodes.lastUpdated r)) <$> tbl_nodes db !! id.

(** [r.Scan(&node.ID, &node.LastCrawled)]: the two selected columns go into
    the two fields, the rest of the node is left as it was. *)
Definition Scan (cols : string * Z) (node : Node) : Node :=
  {| ID := cols.1; LastCrawled := cols.2; NodeProfile := NodeProfile node |}.

(* ===================================================================== *)
(** ** The connection: transactions, faults, errors *)
(* ===================================================================== *)

Inductive error :=
  | ErrNoRows              (* sql.ErrNoRows: the query selected no row *)
  | ErrDriver (call : nat) (* the engine or the network failed this call *)
  | ErrTxDone.             (* sql.ErrTxDone *)

Inductive result (A : Type) :=
  | Ok (a : A)
  | Err (e : error).
Arguments Ok {A} a.
Arguments Err {A} e.

(** What the engine holds for one caller: the committed tables, the working
    copy of the transaction the caller has open (if any), and the number of
    round trips made so far. *)
Record Conn := {
  committed : DB;
  tx : option DB;
  calls : nat
}.

Definition M (A : Type) : Type := Conn → result A * Conn.

#[global] Instance M_ret : MRet M := λ A a c, (Ok a, c).

(** [if err != nil { return err }] after every call. *)
#[global] Instance M_bind : MBind M := λ A B f m c,
  match m c with
  | (Ok a, c') => f a c'
  | (Err e, c') => (Err e, c')
  end.

Fixpoint for_range {A : Type} (l : list A) (body : A → M unit) : M unit :=
  match l with
  | [] => mret tt
  | x :: l' => body x ;; for_range l' body
  end.

(** [cancel()] of the context a transaction was begun with: database/sql
    rolls the transaction back if it is still open. *)
Definition cancel (c : Conn) : Conn :=
  {| committed := committed c; tx := None; calls := calls c |}.

(** [defer cancel()]: runs when the function returns, on every path. *)
Definition defer_cancel {A : Type} (m : M A) : M A := λ c,
  let '(r, c') := m c in (r, cancel c').

(** An operation starts on the committed tables with no transaction open. *)
Definition run {A : Type} (m : M A) (db : DB) : result A * Conn :=
  m {| committed := db; tx := None; calls := 0 |}.

Section Store.

(** [faults k]: the k-th round trip of the operation fails. *)
Variable faults : nat → bool.

(** The order in which the engine produces the rows of [nodes]; rows with
    equal [lastUpdated] come out of ORDER BY in that order. *)
Variable scan : gmap string nodes.row → list (string * nodes.row).

Definition round_trip : M unit := λ c,
  let c' := {| committed := committed c; tx := tx c; calls := S (calls c) |} in
  if faults (calls c) then (Err (ErrDriver (calls c)), c') else (Ok tt, c').

(** A transaction starts from the committed tables. *)
Definition open_tx : M unit := λ c,
  (Ok tt, {| committed := committed c; tx := Some (committed c);
             calls := calls c |}).

(** A statement of a transaction works on the transaction's copy. *)
Definition in_tx (stmt : DB → DB) : M unit := λ c,
  match tx c with
  | Some w => (Ok tt, {| committed := committed c; tx := Some (stmt w);
                         calls := calls c |})
  | None => (Err ErrTxDone, c)
  end.

(** A query outside any transaction reads the committed tables; no row
    selected is [sql.ErrNoRows] at [Scan]. *)
Definition read {A : Type} (q : DB → option A) : M A := λ c,
  match q (committed c) with
  | Some a => (Ok a, c)
  | None => (Err ErrNoRows, c)
  end.

(** [d.db.Begin()], [d.db.BeginTx(ctx, nil)] *)
Definition Begin : M unit := round_trip ;; open_tx.

(** [tx.Prepare(...)], [d.db.Prepare(...)] *)
Definition Prepare : M unit := round_trip.

(** [Exec] of a statement inside the transaction. *)
Definition Exec (stmt : DB → DB) : M unit := round_trip ;; in_tx stmt.

(** [tx.Commit()]: the transaction is over whether the commit succeeds or
    not; only a successful commit installs the working copy. *)
Definition Commit : M unit := λ c,
  match tx c with
  | None => (Err ErrTxDone, c)
  | Some w =>
      if faults (calls c)
      then (Err (ErrDriver (calls c)),
            {| committed := committed c; tx := None; calls := S (calls c) |})
      else (Ok tt, {| committed := w; tx := None; calls := S (calls c) |})
  end.

(** [QueryRow(...)] followed by [Scan]. *)
Definition QueryRow {A : Type} (q : DB → option A) : M A :=
  round_trip ;; read q.

(* =================================================================== *)
(** ** The operations of SQLDatastore *)
(* =================================================================== *)

Definition GetNextNode : M Node :=
  cols ← QueryRow (λ db, select_next (scan (tbl_nodes db)));
  mret (Scan cols zero_Node).

Definition SaveNodeUninitialized (now : Z) (n : Node) : M unit :=
  Begin ;;
  Prepare ;;
  Exec (stmt_touch_node now (ID n)) ;;
  Commit.

Definition SaveNode (now : Z) (n : Node) : M unit :=
  Begin ;;
  Prepare ;;
  Exec (stmt_save_node now n) ;;
  Commit.

(** The [fmt.Printf] of the loop writes to standard output only. *)
Definition AddUninitializedNodes (nodes : list Node) : M unit :=
  Begin ;;
  for_range nodes (λ n,
    Prepare ;;
    Exec (stmt_enqueue_node (ID n))) ;;
  Commit.

Definition GetNode (nodeID : string) : M Node :=
  Prepare ;;
  cols ← QueryRow (select_node nodeID);
  mret (Scan cols zero_Node).

Definition AddItemsForNode (owner : string) (items : list Item) : M unit :=
  defer_cancel (
    Begin ;;
    Prepare ;;
    Exec (stmt_delete_items owner) ;;
    for_range items (λ it,
      Prepare ;;
      Exec (stmt_upsert_item owner it)) ;;
    Commit).

End Store.

(* ===================================================================== *)
(** ** Vocabulary of the statements below *)
(* ===================================================================== *)

(** The statements of a loop, applied in order to a working copy. *)
Definition apply_all {A : Type} (f : A → DB → DB) (l : list A) (w : DB) : DB :=
  foldl (λ w x, f x w) w l.

(** The last item of a sequence that carries a given hash. *)
Fixpoint last_with_hash (h : string) (its : list Item) : option Item :=
  match its with
  | [] => None
  | it :: rest =>
      match last_with_hash h rest with
      | Some x => Some x
      | None => if decide (Hash it = h) then Some it else None
      end
  end.

(** The owner the row of a hash ends up with after an upsert by [o]: the
    stored one, or [o] for a hash that is free. *)
Definition owner_at (o : string) (t : gmap string items.row) (h : string)
    : string :=
  match t !! h with
  | Some r => items.owner r
  | None => o
  end.

(** The rows of a table that belong to an owner. *)
Definition owned_by (o : string) (t : gmap string items.row)
    : gmap string items.row :=
  filter (λ kv, items.owner kv.2 = o) t.

(** A reported catalog as rows of an owner, keyed by hash; of two items with
    one hash the later one stands. *)
Definition catalog (o : string) (its : list Item) : gmap string items.row :=
  foldl (λ m it, <[Hash it := item_row o it]> m) ∅ its.

(** No hash of the sequence is stored under another owner. *)
Definition hashes_free_or_owned (o : string) (its : list Item)
    (t : gmap string items.row) : bool :=
  forallb (λ it, match t !! Hash it with
                 | Some r => bool_decide (items.owner r = o)
                 | None => true
                 end) its.

(** The fifteen columns the crawler learns from a node, and the same values
    as the node carries them. *)
Definition profile_columns (r : nodes.row) :=
  (nodes.name r, nodes.handle r, nodes.location r, nodes.nsfw r,
   nodes.vendor r, nodes.moderator r, nodes.about r,
   nodes.shortDescription r,
   (nodes.followerCount r, nodes.followingCount r, nodes.listingCount r,
    nodes.postCount r, nodes.ratingCount r, nodes.averageRating r)).

(** The fifteen columns of a row of which only id and lastUpdated were
    given: all NULL. *)
Definition unset_profile :
    option string * option string * option string * option bool *
    option bool * option bool * option string * option string *
    (option Z * option Z * option Z * option Z * option Z * option Z) :=
  (None, None, None, None, None, None, None, None,
   (None, None, None, None, None, None)).

(** The ids of a batch as the id column keeps them. *)
Definition stored_ids (l : list Node) : list string :=
  map (λ n, truncate_id (ID n)) l.

Definition profile_values (n : Node) :=
  let p := NodeProfile n in
  let s := ProfileStats p in
  (Some (Name p), Some (Handle p), Some (Location p), Some (Nsfw p),
   Some (Vendor p), Some (Moderator p), Some (About p),
   Some (ShortDescription p),
   (Some (FollowerCount s), Some (FollowingCount s), Some (ListingCount s),
    Some (PostCount s), Some (RatingCount s), Some (AverageRating s))).

(** Splitting a stored field at its commas, as [strings.Split(s, ",")]
    does. *)
Definition comma : ascii := ","%char.

Fixpoint split_commas (s : string) : list string :=
  match s with
  | EmptyString => [EmptyString]
  | String a s' =>
      if Ascii.eqb a comma then EmptyString :: split_commas s'
      else match split_commas s' with
           | [] => [String a EmptyString]
           | h :: t => String a h :: t
           end
  end.

Fixpoint comma_free (s : string) : bool :=
  match s with
  | EmptyString => true
  | String a s' => negb (Ascii.eqb a comma) && comma_free s'
  end.

Definition no_faults : nat → bool := λ _, false.

(** An engine that produces the rows in key order. *)
Definition key_order (t : gmap string nodes.row) : list (string * nodes.row) :=
  map_to_list t.

(* ===================================================================== *)
(** ** Sample payloads and stores *)
(* ===================================================================== *)

Definition sample_item (h t : string) (cats : list string) : Item :=
  {| Hash := h; Slug := "slug-of-" +:+ h; Title := t; Description := EmptyString;
     ItemThumbnail := {| Tiny := EmptyString; Small := EmptyString; Medium := EmptyString |};
     Language := "en";
     ItemPrice := {| Amount := 1500; CurrencyCode := "USD" |};
     Categories := cats; NSFW := false; ContractType := "PHYSICAL_GOOD";
     ItemAverageRating := 450 |}.

Definition sample_node (id nm : string) (followers : Z) : Node :=
  {| ID := id; LastCrawled := zero_time;
     NodeProfile :=
       {| Name := nm; Handle := "@" +:+ nm; Location := EmptyString; Nsfw := false;
          Vendor := true; Moderator := false; About := EmptyString;
          ShortDescription := EmptyString;
          ProfileStats :=
            {| FollowerCount := followers; FollowingCount := 0;
               ListingCount := 2; PostCount := 0; RatingCount := 1;
               AverageRating := 500 |} |} |}.

(** A store where owner "B" holds the items "h1" and "h9". *)
Definition stale_DB : DB :=
  {| tbl_nodes := ∅;
     tbl_items :=
       {[ "h1" := item_row "B" (sample_item "h1" "old title" ["x"]);
          "h9" := item_row "B" (sample_item "h9" "other" []) ]} |}.

(** A store where owner "A" holds "h1" and "h2", and owner "B" holds "h9". *)
Definition synced_DB : DB :=
  {| tbl_nodes := {[ "A" := nodes.minimal 1700000000 ]};
     tbl_items :=
       {[ "h1" := item_row "A" (sample_item "h1" "first" ["a"; "b"]);
          "h2" := item_row "A" (sample_item "h2" "second" []);
          "h9" := item_row "B" (sample_item "h9" "other" []) ]} |}.

(** The row of node "A" after a moderator has listed it. *)
Definition listed_row : nodes.row :=
  {| nodes.lastUpdated := 1600000000; nodes.name := Some "old";
     nodes.handle := None; nodes.location := None; nodes.nsfw := None;
     nodes.vendor := None; nodes.moderator := None; nodes.about := None;
     nodes.shortDescription := None; nodes.followerCount := Some 1;
     nodes.followingCount := None; nodes.listingCount := None;
     nodes.postCount := None; nodes.ratingCount := None;
     nodes.averageRating := None; nodes.listed := true;
     nodes.banned := false |}.

Definition listed_DB : DB :=
  {| tbl_nodes := {[ "A" := listed_row ]}; tbl_items := ∅ |}.

Definition frontier_DB : DB :=
  {| tbl_nodes :=
       {[ "A" := nodes.minimal 1700000000;
          "B" := nodes.minimal never_crawled;
          "C" := listed_row ]};
     tbl_items := ∅ |}.

(** An id of sixty characters, and the fifty the id column keeps of it. *)
Definition long_id : string :=
  "QmLongLongLongLongLongLongLongLongLongLongLongLongLongLongLo".

Definition long_id_stored : string :=
  "QmLongLongLongLongLongLongLongLongLongLongLongLong".

(** The engine fails exactly the k-th round trip. *)
Definition fault_at (k : nat) : nat → bool := λ i, Nat.eqb i k.

(* ===================================================================== *)
(** ** Opening the store *)
(* ===================================================================== *)

(** The engine as NewSQLDatastore finds it: each of the two tables exists,
    with its rows, or does not. *)
Record Engine := {
  eng_nodes : option (gmap string nodes.row);
  eng_items : option (gmap string items.row)
}.

(** [CREATE TABLE IF NOT EXISTS]: a table that exists is left alone. *)
Definition create_table_if_not_exists {R : Type}
    (t : option (gmap string R)) : option (gmap string R) :=
  match t with
  | Some m => Some m
  | None => Some ∅
  end.

(** NewSQLDatastore: the two [db.Exec] run outside any transaction, each
    takes effect at once; an error returns no datastore. *)
Definition NewSQLDatastore (faults : nat → bool) (e : Engine)
    : result unit * Engine :=
  if faults 0%nat then (Err (ErrDriver 0), e)
  else
    let e1 := {| eng_nodes := create_table_if_not_exists (eng_nodes e);
                 eng_items := eng_items e |} in
    if faults 1%nat then (Err (ErrDriver 1), e1)
    else
      (Ok tt, {| eng_nodes := eng_nodes e1;
                 eng_items := create_table_if_not_exists (eng_items e1) |}).

(** The tables the operations of a datastore work on, once both exist. *)
Definition tables (e : Engine) : option DB :=
  match eng_nodes e, eng_items e with
  | Some n, Some i => Some {| tbl_nodes := n; tbl_items := i |}
  | _, _ => None
  end.

Definition fresh_Engine : Engine := {| eng_nodes := None; eng_items := None |}.

(* ===================================================================== *)
(** ** Sequences of calls *)
(* ===================================================================== *)

(** A call of one of the four writing operations. *)
Inductive call :=
  | CallSaveNodeUninitialized (now : Z) (n : Node)
  | CallSaveNode (now : Z) (n : Node)
  | CallAddUninitializedNodes (l : list Node)
  | CallAddItemsForNode (o : string) (its : list Item).

(** The committed tables after a call, under the faults it meets. *)
Definition perform (faults : nat → bool) (k : call) (db : DB) : DB :=
  match k with
  | CallSaveNodeUninitialized now n =>
      committed (run (SaveNodeUninitialized faults now n) db).2
  | CallSaveNode now n =>
      committed (run (SaveNode faults now n) db).2
  | CallAddUninitializedNodes l =>
      committed (run (AddUninitializedNodes faults l) db).2
  | CallAddItemsForNode o its =>
      committed (run (AddItemsForNode faults o its) db).2
  end.

(** A history: calls in order, each with the faults it meets. *)
Definition perform_all (ks : list ((nat → bool) * call)) (db : DB) : DB :=
  foldl (λ db fk, perform fk.1 fk.2 db) db ks.

(** What a call commits when it gets through. *)
Definition effect (k : call) (db : DB) : DB :=
  match k with
  | CallSaveNodeUninitialized now n => stmt_touch_node now (ID n) db
  | CallSaveNode now n => stmt_save_node now n db
  | CallAddUninitializedNodes l =>
      apply_all (λ n, stmt_enqueue_node (ID n)) l db
  | CallAddItemsForNode o its =>
      apply_all (stmt_upsert_item o) its (stmt_delete_items o db)
  end.

(** Between two states of the nodes table: no row has gone, the rows that
    were there have their [listed] and [banned] as before, and the rows that
    are new have both false. *)
Definition flags_kept (t t' : gmap string nodes.row) : Prop :=
  ∀ id,
    match t' !! id with
    | Some r' =>
        match t !! id with
        | Some r => nodes.listed r' = nodes.listed r ∧
                    nodes.banned r' = nodes.banned r
        | None => nodes.listed r' = false ∧ nodes.banned r' = false
        end
    | None => t !! id = None
    end.

(** Between two states of the items table: every row is as it was or has
    the empty [tags]. *)
Definition tags_kept (t t' : gmap string items.row) : Prop :=
  ∀ h r', t' !! h = Some r' →
          t !! h = Some r' ∨ items.tags r' = EmptyString.

(** A history of three crawls of two nodes, the second call failing. *)
Definition sample_history : list ((nat → bool) * call) :=
  [ (no_faults, CallAddUninitializedNodes
                  [sample_node "A" "a" 0; sample_node "B" "b" 0]);
    (fault_at 2, CallSaveNode 1700000000 (sample_node "A" "X" 5));
    (no_faults, CallSaveNodeUninitialized 1700000100 (sample_node "A" "X" 5));
    (no_faults, CallAddItemsForNode "A"
                  [sample_item "h1" "first" ["a"; "b"]]);
    (no_faults, CallSaveNode 1700000200 (sample_node "B" "Y" 7)) ].

(* ===================================================================== *)
(** ** What a run of each operation leaves behind *)
(* ===================================================================== *)

Section Runs.

Variable faults : nat → bool.

Lemma bind_run {A B : Type} (m : M A) (f : A → M B) (c : Conn) :
  (m ≫= f) c =
    match m c with
    | (Ok a, c') => f a c'
    | (Err e, c') => (Err e, c')
    end.
Proof. reflexivity. Qed.

Lemma Begin_run (c : Conn) :
  Begin faults c =
    if faults (calls c)
    then (Err (ErrDriver (calls c)),
          {| committed := committed c; tx := tx c; calls := S (calls c) |})
    else (Ok tt, {| committed := committed c; tx := Some (committed c);
                    calls := S (calls c) |}).
Proof. unfold Begin. rewrite bind_run. unfold round_trip.
  by destruct (faults (calls c)). Qed.

Lemma Prepare_run (c : Conn) :
  Prepare faults c =
    (if faults (calls c) then Err (ErrDriver (calls c)) else Ok tt,
     {| committed := committed c; tx := tx c; calls := S (calls c) |}).
Proof. unfold Prepare, round_trip. by destruct (faults (calls c)). Qed.

Lemma Exec_run (stmt : DB → DB) (c : Conn) (w : DB) :
  tx c = Some w →
  Exec faults stmt c =
    if faults (calls c)
    then (Err (ErrDriver (calls c)),
          {| committed := committed c; tx := Some w; calls := S (calls c) |})
    else (Ok tt, {| committed := committed c; tx := Some (stmt w);
                    calls := S (calls c) |}).
Proof.
  intros Htx. unfold Exec. rewrite bind_run. unfold round_trip, in_tx.
  destruct (faults (calls c)); simpl; by rewrite Htx.
Qed.

Lemma Commit_run (c : Conn) (w : DB) :
  tx c = Some w →
  Commit faults c =
    if faults (calls c)
    then (Err (ErrDriver (calls c)),
          {| committed := committed c; tx := None; calls := S (calls c) |})
    else (Ok tt, {| committed := w; tx := None; calls := S (calls c) |}).
Proof. intros Htx. unfold Commit. by rewrite Htx. Qed.

Lemma QueryRow_run {A : Type} (q : DB → option A) (c : Conn) :
  QueryRow faults q c =
    if faults (calls c)
    then (Err (ErrDriver (calls c)),
          {| committed := committed c; tx := tx c; calls := S (calls c) |})
    else (match q (committed c) with
          | Some a => Ok a
          | None => Err ErrNoRows
          end,
          {| committed := committed c; tx := tx c; calls := S (calls c) |}).
Proof.
  unfold QueryRow. rewrite bind_run. unfold round_trip, read.
  destruct (faults (calls c)); simpl; [done|]. by destruct (q _).
Qed.

(** The next call of a sequence, in a hypothesis [H] about its run: the
    call's equation is put in, and the path on which the call fails is
    closed, the run having returned the error there. *)
Tactic Notation "call_in" hyp(H) uconstr(eqn) :=
  rewrite bind_run, eqn in H by reflexivity;
  cbn [calls committed tx] in H;
  match type of H with
  | context [if ?b then _ else _] => destruct b; [by inversion H|]
  end.

(** The next call of a sequence in the goal, when no call fails. *)
Tactic Notation "call_through" constr(Hnf) uconstr(eqn) :=
  rewrite bind_run, eqn by reflexivity;
  cbn [calls committed tx]; rewrite Hnf.

(** One turn of a loop: [Prepare], then [Exec] of the statement on the
    working copy. *)
Lemma prepare_exec_run (stmt : DB → DB) (c : Conn) (w : DB) :
  tx c = Some w →
  (Prepare faults ;; Exec faults stmt) c =
    if faults (calls c)
    then (Err (ErrDriver (calls c)),
          {| committed := committed c; tx := Some w; calls := S (calls c) |})
    else if faults (S (calls c))
    then (Err (ErrDriver (S (calls c))),
          {| committed := committed c; tx := Some w;
             calls := S (S (calls c)) |})
    else (Ok tt, {| committed := committed c; tx := Some (stmt w);
                    calls := S (S (calls c)) |}).
Proof.
  intros Htx. rewrite bind_run, Prepare_run.
  destruct (faults (calls c)); [by rewrite Htx|].
  by rewrite (Exec_run stmt _ w).
Qed.

(** A loop of [Prepare; Exec] inside an open transaction never touches the
    committed tables; when it gets through, the working copy has had every
    statement applied, in order. *)
Lemma for_range_exec {A : Type} (f : A → DB → DB) (l : list A) :
  ∀ c w r c',
    tx c = Some w →
    for_range l (λ x, Prepare faults ;; Exec faults (f x)) c = (r, c') →
    committed c' = committed c ∧
    match r with
    | Ok _ => tx c' = Some (apply_all f l w)
    | Err _ => is_Some (tx c')
    end.
Proof.
  induction l as [|x l IH]; intros c w r c' Htx Hrun.
  - simpl in Hrun. inversion Hrun; subst. eauto.
  - simpl in Hrun. rewrite bind_run in Hrun.
    rewrite (prepare_exec_run (f x) c w Htx) in Hrun.
    destruct (faults (calls c)).
    { inversion Hrun; subst; simpl; eauto. }
    destruct (faults (S (calls c))).
    { inversion Hrun; subst; simpl; eauto. }
    eapply IH in Hrun; [|reflexivity]. exact Hrun.
Qed.

(** Without faults the loop gets through. *)
Lemma for_range_exec_total {A : Type} (f : A → DB → DB) (l : list A) :
  (∀ k, faults k = false) →
  ∀ c w, tx c = Some w →
    for_range l (λ x, Prepare faults ;; Exec faults (f x)) c =
    (Ok tt, {| committed := committed c; tx := Some (apply_all f l w);
               calls := (calls c + 2 * length l)%nat |}).
Proof.
  intros Hnf. induction l as [|x l IH]; intros c w Htx.
  - simpl. unfold mret, M_ret. destruct c as [d t k]. simpl in *. subst.
    do 2 f_equal. lia.
  - simpl. rewrite bind_run.
    rewrite (prepare_exec_run (f x) c w Htx), !Hnf.
    erewrite IH; [|reflexivity]. simpl.
    do 2 f_equal. lia.
Qed.

(** AddItemsForNode: a failed run leaves the committed tables as they were
    and no transaction open; a successful run commits the DELETE followed
    by the upserts. *)
Lemma AddItemsForNode_run (o : string) (its : list Item) (db : DB) r c' :
  run (AddItemsForNode faults o its) db = (r, c') →
  tx c' = None ∧
  committed c' =
    match r with
    | Ok _ => apply_all (stmt_upsert_item o) its (stmt_delete_items o db)
    | Err _ => db
    end.
Proof.
  unfold run, AddItemsForNode, defer_cancel. intros Hrun.
  match type of Hrun with
  | (let '(_, _) := ?m ?c in _) = _ => destruct (m c) as [r0 c0] eqn:Hm
  end.
  inversion Hrun; subst r0 c'; clear Hrun. split; [reflexivity|]. simpl.
  call_in Hm Begin_run.
  call_in Hm Prepare_run.
  call_in Hm (Exec_run (stmt_delete_items o) _ db).
  rewrite bind_run in Hm.
  match type of Hm with
  | context [for_range its ?b ?c] =>
      destruct (for_range its b c) as [[[]|e] c1] eqn:Hloop;
      (apply (for_range_exec (stmt_upsert_item o) its c
                (stmt_delete_items o db)) in Hloop; [|reflexivity])
  end.
  - destruct Hloop as [Hc Ht]. cbn [calls committed tx] in Hc.
    rewrite (Commit_run _ _ Ht) in Hm.
    destruct (faults (calls c1)); inversion Hm; subst; simpl; congruence.
  - destruct Hloop as [Hc _]. inversion Hm; subst. simpl in *. exact Hc.
Qed.

Lemma AddItemsForNode_total (o : string) (its : list Item) (db : DB) :
  (∀ k, faults k = false) →
  run (AddItemsForNode faults o its) db =
    (Ok tt,
     {| committed := apply_all (stmt_upsert_item o) its (stmt_delete_items o db);
        tx := None; calls := (4 + 2 * length its)%nat |}).
Proof.
  intros Hnf. unfold run, AddItemsForNode, defer_cancel.
  call_through Hnf Begin_run.
  call_through Hnf Prepare_run.
  call_through Hnf (Exec_run (stmt_delete_items o) _ db).
  rewrite bind_run.
  rewrite (for_range_exec_total _ _ Hnf _ (stmt_delete_items o db))
    by reflexivity.
  erewrite Commit_run by reflexivity. rewrite Hnf.
  unfold cancel. simpl. repeat f_equal; lia.
Qed.

(** The shape of SaveNode and SaveNodeUninitialized: one statement in one
    transaction. Nothing rolls the transaction back when a call fails: it
    is left open, and the committed tables stay as they were. *)
Lemma one_statement_run (stmt : DB → DB) (db : DB) r c' :
  run (Begin faults ;; Prepare faults ;; Exec faults stmt ;; Commit faults) db
    = (r, c') →
  committed c' =
    match r with
    | Ok _ => stmt db
    | Err _ => db
    end.
Proof.
  unfold run. intros Hm.
  call_in Hm Begin_run.
  call_in Hm Prepare_run.
  call_in Hm (Exec_run stmt _ db).
  erewrite Commit_run in Hm by reflexivity. cbn [calls] in Hm.
  destruct (faults 3%nat); by inversion Hm.
Qed.

Lemma one_statement_total (stmt : DB → DB) (db : DB) :
  (∀ k, faults k = false) →
  run (Begin faults ;; Prepare faults ;; Exec faults stmt ;; Commit faults) db
    = (Ok tt, {| committed := stmt db; tx := None; calls := 4 |}).
Proof.
  intros Hnf. unfold run.
  call_through Hnf Begin_run.
  call_through Hnf Prepare_run.
  call_through Hnf (Exec_run stmt _ db).
  erewrite Commit_run by reflexivity. by rewrite Hnf.
Qed.

Lemma SaveNode_run (now : Z) (n : Node) (db : DB) r c' :
  run (SaveNode faults now n) db = (r, c') →
  committed c' =
    match r with
    | Ok _ => stmt_save_node now n db
    | Err _ => db
    end.
Proof. apply one_statement_run. Qed.

Lemma SaveNodeUninitialized_run (now : Z) (n : Node) (db : DB) r c' :
  run (SaveNodeUninitialized faults now n) db = (r, c') →
  committed c' =
    match r with
    | Ok _ => stmt_touch_node now (ID n) db
    | Err _ => db
    end.
Proof. apply one_statement_run. Qed.

Lemma AddUninitializedNodes_run (l : list Node) (db : DB) r c' :
  run (AddUninitializedNodes faults l) db = (r, c') →
  committed c' =
    match r with
    | Ok _ => apply_all (λ n, stmt_enqueue_node (ID n)) l db
    | Err _ => db
    end.
Proof.
  unfold run, AddUninitializedNodes. intros Hm.
  call_in Hm Begin_run.
  rewrite bind_run in Hm.
  match type of Hm with
  | context [for_range l ?b ?c] =>
      destruct (for_range l b c) as [[[]|e] c1] eqn:Hloop;
      (apply (for_range_exec (λ n, stmt_enqueue_node (ID n)) l c db)
         in Hloop; [|reflexivity])
  end.
  - destruct Hloop as [Hc Ht]. cbn [calls committed tx] in Hc.
    rewrite (Commit_run _ _ Ht) in Hm.
    destruct (faults (calls c1)); inversion Hm; subst; simpl; congruence.
  - destruct Hloop as [Hc _]. inversion Hm; subst. simpl in *. exact Hc.
Qed.

Lemma AddUninitializedNodes_total (l : list Node) (db : DB) :
  (∀ k, faults k = false) →
  run (AddUninitializedNodes faults l) db =
    (Ok tt,
     {| committed := apply_all (λ n, stmt_enqueue_node (ID n)) l db;
        tx := None; calls := (2 + 2 * length l)%nat |}).
Proof.
  intros Hnf. unfold run, AddUninitializedNodes.
  call_through Hnf Begin_run.
  rewrite bind_run.
  rewrite (for_range_exec_total _ _ Hnf _ db) by reflexivity.
  erewrite Commit_run by reflexivity. rewrite Hnf.
  simpl. repeat f_equal; lia.
Qed.

(** The two reads leave the connection as it was, one call further. *)
Lemma GetNode_run (id : string) (db : DB) :
  faults 0%nat = false → faults 1%nat = false →
  run (GetNode faults id) db =
    (match tbl_nodes db !! id with
     | Some r => Ok {| ID := id; LastCrawled := nodes.lastUpdated r;
                       NodeProfile := zero_Profile |}
     | None => Err ErrNoRows
     end,
     {| committed := db; tx := None; calls := 2 |}).
Proof.
  intros H0 H1. unfold run, GetNode.
  call_through H0 Prepare_run.
  call_through H1 QueryRow_run.
  unfold select_node. by destruct (tbl_nodes db !! id).
Qed.

Lemma GetNextNode_run scan (db : DB) :
  faults 0%nat = false →
  run (GetNextNode faults scan) db =
    (match order_by_lastUpdated_limit_1 (scan (tbl_nodes db)) with
     | Some kr => Ok {| ID := kr.1; LastCrawled := nodes.lastUpdated kr.2;
                       NodeProfile := zero_Profile |}
     | None => Err ErrNoRows
     end,
     {| committed := db; tx := None; calls := 1 |}).
Proof.
  intros H0. unfold run, GetNextNode.
  call_through H0 QueryRow_run.
  unfold select_next. by destruct (order_by_lastUpdated_limit_1 _).
Qed.

End Runs.

(* ===================================================================== *)
(** ** The tables after the statements *)
(* ===================================================================== *)

Lemma lookup_upsert_eq {R : Type} (k : string) (ins : R) (upd : R → R)
    (t : gmap string R) :
  insert_on_duplicate_key_update k ins upd t !! k =
    Some (match t !! k with Some r => upd r | None => ins end).
Proof.
  unfold insert_on_duplicate_key_update.
  destruct (t !! k); by rewrite lookup_insert_eq.
Qed.

Lemma lookup_upsert_ne {R : Type} (k k' : string) (ins : R) (upd : R → R)
    (t : gmap string R) :
  k ≠ k' → insert_on_duplicate_key_update k ins upd t !! k' = t !! k'.
Proof.
  intros Hne. unfold insert_on_duplicate_key_update.
  destruct (t !! k); by rewrite lookup_insert_ne.
Qed.

Lemma lookup_insert_ignore {R : Type} (k k' : string) (ins : R)
    (t : gmap string R) :
  insert_ignore k ins t !! k' =
    match t !! k' with
    | Some r => Some r
    | None => if decide (k = k') then Some ins else None
    end.
Proof.
  unfold insert_ignore. destruct (decide (k = k')) as [<-|Hne].
  - destruct (t !! k) eqn:Hk; [by rewrite Hk|by rewrite lookup_insert_eq].
  - destruct (t !! k); [by destruct (t !! k')|].
    rewrite lookup_insert_ne by done. by destruct (t !! k').
Qed.

Section Items.

Variable o : string.

Lemma item_update_row (it : Item) (r : items.row) :
  item_update it r = item_row (items.owner r) it.
Proof. reflexivity. Qed.

Lemma last_with_hash_Some (h : string) (its : list Item) (it : Item) :
  last_with_hash h its = Some it → it ∈ its ∧ Hash it = h.
Proof.
  induction its as [|x its IH]; simpl; [done|].
  destruct (last_with_hash h its) as [y|].
  - intros [= ->]. destruct IH as [Hin Hh]; [done|].
    split; [apply elem_of_cons; by right|done].
  - case_decide; [|done]. intros [= ->].
    split; [apply elem_of_cons; by left|done].
Qed.

Lemma last_with_hash_None (h : string) (its : list Item) :
  last_with_hash h its = None ↔ h ∉ map Hash its.
Proof.
  induction its as [|x its IH]; simpl.
  - split; [intros _; apply not_elem_of_nil|done].
  - rewrite not_elem_of_cons, <- IH.
    destruct (last_with_hash h its) as [y|].
    + split; [done|]. by intros [_ ?].
    + case_decide; (split; [intros ?|intros [? _]]; try split; congruence).
Qed.

Lemma last_with_hash_elem (it : Item) (its : list Item) :
  it ∈ its → is_Some (last_with_hash (Hash it) its).
Proof.
  intros Hin. destruct (last_with_hash (Hash it) its) eqn:Hl; [eauto|].
  apply last_with_hash_None in Hl. destruct Hl.
  apply list_elem_of_fmap. eauto.
Qed.

(** With pairwise distinct hashes every item is the last one of its
    hash. *)
Lemma last_with_hash_NoDup (it : Item) (its : list Item) :
  NoDup (map Hash its) → it ∈ its → last_with_hash (Hash it) its = Some it.
Proof.
  induction its as [|x its IH]; simpl; intros Hnd Hin.
  - by apply elem_of_nil in Hin.
  - apply NoDup_cons in Hnd as [Hx Hnd].
    apply elem_of_cons in Hin as [->|Hin].
    + assert (last_with_hash (Hash x) its = None) as ->
        by by apply last_with_hash_None.
      by rewrite decide_True.
    + by rewrite IH.
Qed.

Lemma tbl_nodes_upserts (its : list Item) (w : DB) :
  tbl_nodes (apply_all (stmt_upsert_item o) its w) = tbl_nodes w.
Proof.
  revert w. induction its as [|it its IH]; intros w; [done|].
  unfold apply_all in *. simpl. by rewrite IH.
Qed.

(** The table after the loop of upserts: a hash of the sequence holds the
    values of the last item that carries it, under the owner the hash had
    when the loop began; every other row is as it was. *)
Lemma lookup_upserts (its : list Item) (w : DB) (h : string) :
  tbl_items (apply_all (stmt_upsert_item o) its w) !! h =
    match last_with_hash h its with
    | Some it => Some (item_row (owner_at o (tbl_items w) h) it)
    | None => tbl_items w !! h
    end.
Proof.
  revert w. induction its as [|it its IH]; intros w; [done|].
  unfold apply_all in *. simpl. rewrite IH. clear IH.
  unfold owner_at. simpl.
  destruct (decide (Hash it = h)) as [<-|Hne].
  - rewrite lookup_upsert_eq.
    destruct (last_with_hash (Hash it) its);
      by destruct (tbl_items w !! Hash it).
  - rewrite !lookup_upsert_ne by done.
    by destruct (last_with_hash h its).
Qed.

Lemma lookup_delete_items (db : DB) (h : string) :
  tbl_items (stmt_delete_items o db) !! h =
    match tbl_items db !! h with
    | Some r => if decide (items.owner r = o) then None else Some r
    | None => None
    end.
Proof.
  unfold stmt_delete_items. simpl.
  destruct (tbl_items db !! h) as [r|] eqn:Hh.
  - case_decide.
    + apply map_lookup_filter_None. right. intros r' Hr'. simpl.
      rewrite Hh in Hr'. injection Hr' as <-. by intros ?.
    + by apply map_lookup_filter_Some.
  - apply map_lookup_filter_None. by left.
Qed.

(** The items table a successful AddItemsForNode commits. *)
Lemma lookup_replaced (its : list Item) (db : DB) (h : string) :
  tbl_items (apply_all (stmt_upsert_item o) its (stmt_delete_items o db)) !! h =
    match last_with_hash h its with
    | Some it => Some (item_row (owner_at o (tbl_items db) h) it)
    | None =>
        match tbl_items db !! h with
        | Some r => if decide (items.owner r = o) then None else Some r
        | None => None
        end
    end.
Proof.
  rewrite lookup_upserts. destruct (last_with_hash h its); [|apply lookup_delete_items].
  do 2 f_equal. unfold owner_at. rewrite lookup_delete_items.
  destruct (tbl_items db !! h); [|done]. by case_decide.
Qed.

Lemma lookup_catalog (its : list Item) (h : string) :
  catalog o its !! h = item_row o <$> last_with_hash h its.
Proof.
  unfold catalog.
  enough (∀ m : gmap string items.row,
            foldl (λ m it, <[Hash it := item_row o it]> m) m its !! h =
               match last_with_hash h its with
               | Some it => Some (item_row o it)
               | None => m !! h
               end) as Hgen.
  { rewrite Hgen. by destruct (last_with_hash h its). }
  induction its as [|it its IH]; intros m; [done|].
  simpl. rewrite IH. destruct (last_with_hash h its); [done|].
  case_decide; subst; [by rewrite lookup_insert_eq|by rewrite lookup_insert_ne].
Qed.

(** With pairwise distinct hashes the catalog is the set of the rows of the
    items. *)
Lemma catalog_NoDup (its : list Item) (h : string) (r : items.row) :
  NoDup (map Hash its) →
  catalog o its !! h = Some r ↔
  ∃ it, it ∈ its ∧ Hash it = h ∧ r = item_row o it.
Proof.
  intros Hnd. rewrite lookup_catalog. split.
  - destruct (last_with_hash h its) as [it|] eqn:Hlast; [|done].
    intros [= <-]. apply last_with_hash_Some in Hlast as [Hin Hh]. eauto.
  - intros (it & Hin & <- & ->). by rewrite last_with_hash_NoDup.
Qed.

Lemma hashes_free_or_owned_spec (its : list Item) (t : gmap string items.row) :
  hashes_free_or_owned o its t = true →
  ∀ it r, it ∈ its → t !! Hash it = Some r → items.owner r = o.
Proof.
  unfold hashes_free_or_owned. rewrite forallb_forall.
  intros Hall it r Hin Hr. apply list_elem_of_In in Hin.
  specialize (Hall it Hin). rewrite Hr in Hall.
  by apply bool_decide_eq_true in Hall.
Qed.

End Items.

(* ===================================================================== *)
(** ** Joined fields *)
(* ===================================================================== *)

Lemma split_commas_comma_free (e : string) :
  comma_free e = true → split_commas e = [e].
Proof.
  induction e as [|a e IH]; simpl; [done|].
  intros [Ha He]%andb_true_iff. apply negb_true_iff in Ha.
  rewrite Ha, (IH He). done.
Qed.

Lemma split_commas_app (e s : string) :
  comma_free e = true →
  split_commas (e +:+ "," +:+ s) = e :: split_commas s.
Proof.
  induction e as [|a e IH]; simpl; [done|].
  intros [Ha He]%andb_true_iff. apply negb_true_iff in Ha.
  rewrite Ha. simpl in IH. by rewrite (IH He).
Qed.

(** A non-empty list of comma-free strings comes back from its joined
    form. *)
Lemma split_commas_Join (l : list string) :
  l ≠ [] → forallb comma_free l = true → split_commas (Join l ",") = l.
Proof.
  induction l as [|e l IH]; [done|]. intros _ Hall.
  simpl in Hall. apply andb_true_iff in Hall as [He Hl].
  destruct l as [|e' l].
  - simpl. by apply split_commas_comma_free.
  - change (Join (e :: e' :: l) ",") with (e +:+ "," +:+ Join (e' :: l) ",").
    rewrite split_commas_app by done. f_equal. by apply IH.
Qed.

(* ===================================================================== *)
(** ** AddItemsForNode *)
(* ===================================================================== *)

Section Replace.

Variable o : string.

(** As long as no hash of the new items is stored under another owner,
    the rows of the owner after the DELETE and the upserts are the new
    items and nothing else. *)
Lemma owned_by_replaced (its : list Item) (db : DB) :
  (∀ it r, it ∈ its → tbl_items db !! Hash it = Some r → items.owner r = o) →
  owned_by o
    (tbl_items (apply_all (stmt_upsert_item o) its (stmt_delete_items o db)))
  = catalog o its.
Proof.
  intros Hfree. apply map_eq. intros h. apply option_eq. intros r.
  unfold owned_by. rewrite map_lookup_filter_Some, lookup_replaced,
    lookup_catalog. simpl.
  destruct (last_with_hash h its) as [it|] eqn:Hlast; simpl.
  - apply last_with_hash_Some in Hlast as [Hin <-].
    assert (owner_at o (tbl_items db) (Hash it) = o) as ->.
    { unfold owner_at. destruct (tbl_items db !! Hash it) eqn:Hr; eauto. }
    split; [by intros [? _]|]. by intros [= <-].
  - split; [|done]. intros [Hr Ho].
    destruct (tbl_items db !! h); [|done]. case_decide; congruence.
Qed.

(** The condition carries over a sync of the same owner. *)
Lemma free_after_replaced (prev its : list Item) (db : DB) :
  (∀ it r, it ∈ its → tbl_items db !! Hash it = Some r → items.owner r = o) →
  ∀ it r, it ∈ its →
    tbl_items (apply_all (stmt_upsert_item o) prev (stmt_delete_items o db))
      !! Hash it = Some r →
    items.owner r = o.
Proof.
  intros Hfree it r Hin. rewrite lookup_replaced.
  destruct (last_with_hash (Hash it) prev) as [it'|].
  - intros [= <-]. simpl. unfold owner_at.
    destruct (tbl_items db !! Hash it) eqn:Hr; eauto.
  - destruct (tbl_items db !! Hash it) eqn:Hr; [|done].
    case_decide; [done|]. intros [= <-]. eauto.
Qed.

End Replace.

(** C2, as stated, fails: in [stale_DB] the hash "h1" is stored under owner
    "B"; a successful AddItemsForNode of owner "A" with an item of hash "h1"
    updates that row and leaves it with "B", so "A" owns nothing afterwards
    although one item was given. *)
Lemma AddItemsForNode_not_exact_on_foreign_hash :
  ¬ (∀ faults o its db c',
       run (AddItemsForNode faults o its) db = (Ok tt, c') →
       owned_by o (tbl_items (committed c')) = catalog o its).
Proof.
  intros Hclaim.
  specialize (Hclaim no_faults "A" [sample_item "h1" "new title" ["a"]] stale_DB
                _ (AddItemsForNode_total no_faults _ _ _ (λ _, eq_refl))).
  apply (f_equal (λ m, m !! "h1")) in Hclaim.
  vm_compute in Hclaim. discriminate.
Qed.

(** C2 (amended): for every owner and every sequence of items, the empty one
    included, none of whose hashes is stored under another owner, a
    successful AddItemsForNode leaves as the rows of that owner exactly the
    given items (of two items with one hash, the later one); and two
    successful syncs in a row leave exactly the items of the second. *)
Theorem AddItemsForNode_full_replacement (o : string) (its : list Item) (db : DB) :
  hashes_free_or_owned o its (tbl_items db) = true →
  (∀ faults c',
     run (AddItemsForNode faults o its) db = (Ok tt, c') →
     owned_by o (tbl_items (committed c')) = catalog o its) ∧
  (∀ faults1 faults2 prev c1 c2,
     run (AddItemsForNode faults1 o prev) db = (Ok tt, c1) →
     run (AddItemsForNode faults2 o its) (committed c1) = (Ok tt, c2) →
     owned_by o (tbl_items (committed c2)) = catalog o its).
Proof.
  intros Hfree. pose proof (hashes_free_or_owned_spec o its _ Hfree) as Hf.
  split.
  - intros faults c' Hrun. apply AddItemsForNode_run in Hrun as [_ ->].
    by apply owned_by_replaced.
  - intros faults1 faults2 prev c1 c2 Hrun1 Hrun2.
    apply AddItemsForNode_run in Hrun1 as [_ Hc1].
    apply AddItemsForNode_run in Hrun2 as [_ ->].
    apply owned_by_replaced. rewrite Hc1. by apply free_after_replaced.
Qed.

(** A sync of "A" to a single item, then to the empty catalog, in a store
    where "A" held two items and "B" one. *)
Lemma AddItemsForNode_full_replacement_witness :
  owned_by "A"
    (tbl_items (committed
       (run (AddItemsForNode no_faults "A" [sample_item "h3" "third" ["c"]])
            synced_DB).2))
  = catalog "A" [sample_item "h3" "third" ["c"]]
  ∧
  owned_by "A"
    (tbl_items (committed
       (run (AddItemsForNode no_faults "A" [])
          (committed
             (run (AddItemsForNode no_faults "A"
                     [sample_item "h3" "third" ["c"]]) synced_DB).2)).2))
  = catalog "A" [].
Proof.
  split.
  - apply (AddItemsForNode_full_replacement "A"
             [sample_item "h3" "third" ["c"]] synced_DB)
      with (faults := no_faults).
    + vm_compute. reflexivity.
    + vm_compute. reflexivity.
  - apply (proj2 (AddItemsForNode_full_replacement "A" [] synced_DB eq_refl)
                  no_faults no_faults [sample_item "h3" "third" ["c"]]
                  (run (AddItemsForNode no_faults "A"
                          [sample_item "h3" "third" ["c"]]) synced_DB).2
                  (run (AddItemsForNode no_faults "A" [])
                     (committed
                        (run (AddItemsForNode no_faults "A"
                                [sample_item "h3" "third" ["c"]])
                             synced_DB).2)).2).
    + vm_compute. reflexivity.
    + vm_compute. reflexivity.
Defined.

(** C4: when a successful AddItemsForNode of an owner meets, for the hash of
    one of its items, a stored row of another owner, that row ends up with
    the update clause applied to it: the twelve other columns take the values
    of the (last) item with that hash, the owner column keeps its value. *)
Theorem AddItemsForNode_keeps_foreign_owner
    (faults : nat → bool) (o : string) (its : list Item) (db : DB)
    (c' : Conn) (it : Item) (r : items.row) :
  run (AddItemsForNode faults o its) db = (Ok tt, c') →
  it ∈ its →
  tbl_items db !! Hash it = Some r →
  items.owner r ≠ o →
  ∃ it' r',
    last_with_hash (Hash it) its = Some it' ∧
    tbl_items (committed c') !! Hash it = Some r' ∧
    r' = item_update it' r ∧
    items.owner r' = items.owner r ∧
    r' = item_row (items.owner r) it'.
Proof.
  intros Hrun Hin Hr Hne. apply AddItemsForNode_run in Hrun as [_ ->].
  destruct (last_with_hash_elem it its Hin) as [it' Hlast].
  exists it', (item_update it' r). rewrite lookup_replaced, Hlast.
  unfold owner_at. rewrite Hr. done.
Qed.

Lemma AddItemsForNode_keeps_foreign_owner_witness :
  ∃ it' r',
    last_with_hash "h1" [sample_item "h1" "new title" ["a"]] = Some it' ∧
    tbl_items (committed
      (run (AddItemsForNode no_faults "A" [sample_item "h1" "new title" ["a"]])
           stale_DB).2) !! "h1" = Some r' ∧
    r' = item_update it' (item_row "B" (sample_item "h1" "old title" ["x"])) ∧
    items.owner r' = "B" ∧
    r' = item_row "B" it'.
Proof.
  apply (AddItemsForNode_keeps_foreign_owner no_faults "A"
           [sample_item "h1" "new title" ["a"]] stale_DB _
           (sample_item "h1" "new title" ["a"])
           (item_row "B" (sample_item "h1" "old title" ["x"]))).
  - vm_compute. reflexivity.
  - apply list_elem_of_here.
  - vm_compute. reflexivity.
  - vm_compute. discriminate.
Defined.

(** C5: whichever round trip of AddItemsForNode fails (BeginTx, a Prepare,
    the DELETE, an upsert or the Commit), the deferred cancel has rolled the
    transaction back when the error reaches the caller: the committed tables
    are the ones from before the call and no transaction is left open. The
    caller sees either that, or success with the whole delete-then-insert
    sequence committed. *)
Theorem AddItemsForNode_all_or_nothing
    (faults : nat → bool) (o : string) (its : list Item) (db : DB)
    (r : result unit) (c' : Conn) :
  run (AddItemsForNode faults o its) db = (r, c') →
  tx c' = None ∧
  ((∃ e, r = Err e ∧ committed c' = db) ∨
   (r = Ok tt ∧
    committed c' = apply_all (stmt_upsert_item o) its (stmt_delete_items o db))).
Proof.
  intros Hrun. apply AddItemsForNode_run in Hrun as [Htx Hc].
  split; [done|]. destruct r as [[]|e]; eauto.
Qed.

(** The engine fails the upsert of the second of two items, after the DELETE
    and the first upsert went through. *)
Lemma AddItemsForNode_all_or_nothing_witness :
  let out := run (AddItemsForNode (fault_at 6) "A"
                    [sample_item "h3" "third" ["c"];
                     sample_item "h4" "fourth" []]) synced_DB in
  out.1 = Err (ErrDriver 6) ∧
  tx out.2 = None ∧
  ((∃ e, out.1 = Err e ∧ committed out.2 = synced_DB) ∨
   (out.1 = Ok tt ∧
    committed out.2 =
      apply_all (stmt_upsert_item "A")
        [sample_item "h3" "third" ["c"]; sample_item "h4" "fourth" []]
        (stmt_delete_items "A" synced_DB))).
Proof.
  intros out. split; [vm_compute; reflexivity|].
  apply (AddItemsForNode_all_or_nothing (fault_at 6) "A"
           [sample_item "h3" "third" ["c"]; sample_item "h4" "fourth" []]
           synced_DB).
  unfold out. vm_compute. reflexivity.
Defined.

(** C10: a successful AddItemsForNode of an owner leaves every stored item
    row of another owner whose hash is not among the given items exactly as
    it was. *)
Theorem AddItemsForNode_other_rows_unchanged
    (faults : nat → bool) (o : string) (its : list Item) (db : DB)
    (c' : Conn) (h : string) (r : items.row) :
  run (AddItemsForNode faults o its) db = (Ok tt, c') →
  tbl_items db !! h = Some r →
  items.owner r ≠ o →
  h ∉ map Hash its →
  tbl_items (committed c') !! h = Some r.
Proof.
  intros Hrun Hr Hne Hh. apply AddItemsForNode_run in Hrun as [_ ->].
  apply last_with_hash_None in Hh. rewrite lookup_replaced, Hh, Hr.
  by rewrite decide_False.
Qed.

Lemma AddItemsForNode_other_rows_unchanged_witness :
  tbl_items (committed
    (run (AddItemsForNode no_faults "A" [sample_item "h3" "third" ["c"]])
         synced_DB).2) !! "h9"
  = Some (item_row "B" (sample_item "h9" "other" [])).
Proof.
  apply (AddItemsForNode_other_rows_unchanged no_faults "A"
           [sample_item "h3" "third" ["c"]] synced_DB).
  - vm_compute. reflexivity.
  - vm_compute. reflexivity.
  - vm_compute. discriminate.
  - vm_compute. intros Hin. inversion Hin as [|? ? ? Hin']; inversion Hin'.
Defined.

(** C9, as stated, fails in its last part: the categories ["a,b"] and
    ["a"; "b"] are stored as the same string, so no reading of the stored
    field gives back the list of every item. *)
Lemma AddItemsForNode_categories_not_always_reconstructable :
  ¬ (∃ decode : string → list string,
       ∀ faults o its db c' h it,
         run (AddItemsForNode faults o its) db = (Ok tt, c') →
         last_with_hash h its = Some it →
         ∃ r, tbl_items (committed c') !! h = Some r ∧
              items.thumbnail r =
                Tiny (ItemThumbnail it) +:+ "," +:+ Small (ItemThumbnail it)
                  +:+ "," +:+ Medium (ItemThumbnail it) ∧
              items.categories r = Join (Categories it) "," ∧
              decode (items.categories r) = Categories it).
Proof.
  intros [decode Hclaim].
  destruct (Hclaim no_faults "A" [sample_item "h1" "t" ["a,b"]] empty_DB _
              "h1" (sample_item "h1" "t" ["a,b"])
              (AddItemsForNode_total no_faults _ _ _ (λ _, eq_refl)) eq_refl)
    as (r1 & _ & _ & Hc1 & Hd1).
  destruct (Hclaim no_faults "A" [sample_item "h1" "t" ["a"; "b"]] empty_DB _
              "h1" (sample_item "h1" "t" ["a"; "b"])
              (AddItemsForNode_total no_faults _ _ _ (λ _, eq_refl)) eq_refl)
    as (r2 & _ & _ & Hc2 & Hd2).
  rewrite Hc1 in Hd1. rewrite Hc2 in Hd2. cbv in Hd1, Hd2. congruence.
Qed.

(** C9 (amended): every row a successful AddItemsForNode writes holds, as
    thumbnail, the tiny, small and medium URLs joined with commas in that
    order (",," when all three are empty) and, as categories, the category
    list joined with commas; splitting the stored categories at the commas
    gives the list back when the list is not empty and no category contains
    a comma. *)
Theorem AddItemsForNode_joined_fields
    (faults : nat → bool) (o : string) (its : list Item) (db : DB)
    (c' : Conn) (h : string) (it : Item) :
  run (AddItemsForNode faults o its) db = (Ok tt, c') →
  last_with_hash h its = Some it →
  ∃ r, tbl_items (committed c') !! h = Some r ∧
       items.thumbnail r =
         Tiny (ItemThumbnail it) +:+ "," +:+ Small (ItemThumbnail it)
           +:+ "," +:+ Medium (ItemThumbnail it) ∧
       (ItemThumbnail it = {| Tiny := EmptyString; Small := EmptyString; Medium := EmptyString |} →
        items.thumbnail r = ",,") ∧
       items.categories r = Join (Categories it) "," ∧
       (Categories it ≠ [] →
        forallb comma_free (Categories it) = true →
        split_commas (items.categories r) = Categories it).
Proof.
  intros Hrun Hlast. apply AddItemsForNode_run in Hrun as [_ ->].
  eexists. rewrite lookup_replaced, Hlast. split; [reflexivity|]. simpl.
  split; [done|]. split; [by intros ->|]. split; [done|].
  apply split_commas_Join.
Qed.

Lemma AddItemsForNode_joined_fields_witness :
  ∃ r,
    tbl_items (committed
      (run (AddItemsForNode no_faults "A"
              [sample_item "h1" "first" ["a"; "b"]]) empty_DB).2) !! "h1"
      = Some r ∧
    items.thumbnail r = ",," ∧
    items.categories r = "a,b" ∧
    split_commas (items.categories r) = ["a"; "b"].
Proof.
  destruct (AddItemsForNode_joined_fields no_faults "A"
              [sample_item "h1" "first" ["a"; "b"]] empty_DB
              (run (AddItemsForNode no_faults "A"
                      [sample_item "h1" "first" ["a"; "b"]]) empty_DB).2
              "h1" (sample_item "h1" "first" ["a"; "b"]))
    as (r & Hr & _ & Hthumb & Hcat & Hsplit).
  - vm_compute. reflexivity.
  - vm_compute. reflexivity.
  - exists r. split; [exact Hr|]. split; [by apply Hthumb|].
    split; [exact Hcat|]. apply Hsplit; [discriminate|reflexivity].
Defined.

(* ===================================================================== *)
(** ** The nodes table *)
(* ===================================================================== *)

Lemma tbl_items_enqueued (l : list Node) (w : DB) :
  tbl_items (apply_all (λ n, stmt_enqueue_node (ID n)) l w) = tbl_items w.
Proof.
  revert w. induction l as [|n l IH]; intros w; [done|].
  unfold apply_all in *. simpl. by rewrite IH.
Qed.

Lemma varchar_length (w : nat) (s : string) :
  (String.length (varchar w s) ≤ w)%nat.
Proof.
  revert s. induction w as [|w IH]; intros [|a s]; simpl; try lia.
  specialize (IH s). lia.
Qed.

Lemma varchar_fits (w : nat) (s : string) :
  (String.length s ≤ w)%nat → varchar w s = s.
Proof.
  revert s. induction w as [|w IH]; intros [|a s]; simpl; try done; try lia.
  intros Hlen. f_equal. apply IH. lia.
Qed.

Lemma truncate_id_fits (id : string) :
  (String.length id ≤ id_width)%nat → truncate_id id = id.
Proof. apply varchar_fits. Qed.

(** An id longer than the column is the stored id of no node. *)
Lemma long_id_not_stored (id : string) (l : list Node) :
  (id_width < String.length id)%nat → id ∉ stored_ids l.
Proof.
  intros Hlong Hin. apply list_elem_of_fmap in Hin as (n & -> & _).
  pose proof (varchar_length id_width (ID n)) as Hlen.
  unfold truncate_id in Hlong. lia.
Qed.

Lemma stored_ids_elem (n : Node) (l : list Node) :
  n ∈ l → truncate_id (ID n) ∈ stored_ids l.
Proof. intros Hin. apply list_elem_of_fmap. eauto. Qed.

(** The table after the loop of INSERT IGNORE: a row that was there is as it
    was, a stored id of the batch that was free holds the never-crawled
    row. *)
Lemma lookup_enqueued (l : list Node) (w : DB) (id : string) :
  tbl_nodes (apply_all (λ n, stmt_enqueue_node (ID n)) l w) !! id =
    match tbl_nodes w !! id with
    | Some r => Some r
    | None =>
        if decide (id ∈ stored_ids l) then Some (nodes.minimal never_crawled)
        else None
    end.
Proof.
  revert w. induction l as [|n l IH]; intros w.
  - unfold apply_all, stored_ids. cbn [foldl map].
    destruct (tbl_nodes w !! id); [done|].
    rewrite decide_False; [done|apply not_elem_of_nil].
  - unfold apply_all, stored_ids in *. cbn [foldl map]. rewrite IH. clear IH.
    cbn [stmt_enqueue_node tbl_nodes].
    rewrite lookup_insert_ignore.
    destruct (tbl_nodes w !! id) as [r|]; [done|].
    destruct (decide (truncate_id (ID n) = id)) as [<-|Hne].
    + rewrite decide_True; [done|]. apply elem_of_cons. by left.
    + destruct (decide (id ∈ map (λ n, truncate_id (ID n)) l)) as [Hin|Hnin].
      * rewrite decide_True; [done|]. apply elem_of_cons. by right.
      * rewrite decide_False; [done|].
        apply not_elem_of_cons. split; [congruence|done].
Qed.

Lemma order_by_lastUpdated_limit_1_None (rows : list (string * nodes.row)) :
  order_by_lastUpdated_limit_1 rows = None ↔ rows = [].
Proof.
  destruct rows as [|r rows]; simpl; [done|].
  split; [|done].
  destruct (order_by_lastUpdated_limit_1 rows); [|done].
  by case_match.
Qed.

(** The selected row is one of the rows, and none is older. *)
Lemma order_by_lastUpdated_limit_1_Some (rows : list (string * nodes.row))
    (m : string * nodes.row) :
  order_by_lastUpdated_limit_1 rows = Some m →
  m ∈ rows ∧
  ∀ x, x ∈ rows → (nodes.lastUpdated m.2 ≤ nodes.lastUpdated x.2)%Z.
Proof.
  revert m. induction rows as [|r rows IH]; intros m; simpl; [done|].
  destruct (order_by_lastUpdated_limit_1 rows) as [m'|] eqn:Hrest.
  - destruct (IH m' eq_refl) as [Hin Hmin].
    destruct (Z.leb_spec (nodes.lastUpdated r.2) (nodes.lastUpdated m'.2))
      as [Hle|Hgt]; intros [= <-].
    + split; [apply elem_of_cons; by left|].
      intros x [->|Hx]%elem_of_cons; [lia|]. specialize (Hmin x Hx). lia.
    + split; [apply elem_of_cons; by right|].
      intros x [->|Hx]%elem_of_cons; [lia|]. by apply Hmin.
  - intros [= <-]. apply order_by_lastUpdated_limit_1_None in Hrest as ->.
    split; [apply elem_of_cons; by left|].
    intros x [->|Hx]%elem_of_cons; [lia|]. by apply elem_of_nil in Hx.
Qed.

(* ===================================================================== *)
(** ** GetNextNode *)
(* ===================================================================== *)

(** C6: when the query reaches the engine, GetNextNode on a non-empty nodes
    table returns the id and lastUpdated of a stored row than which no
    stored row is older, whatever the order in which the engine produces
    the rows; on an empty table it fails with sql.ErrNoRows. The tables are
    not changed. *)
Theorem GetNextNode_oldest_first
    (faults : nat → bool)
    (scan : gmap string nodes.row → list (string * nodes.row)) (db : DB) :
  (∀ t, scan t ≡ₚ map_to_list t) →
  faults 0%nat = false →
  (tbl_nodes db ≠ ∅ →
   ∃ n r,
     (run (GetNextNode faults scan) db).1 = Ok n ∧
     tbl_nodes db !! ID n = Some r ∧
     LastCrawled n = nodes.lastUpdated r ∧
     ∀ id' r', tbl_nodes db !! id' = Some r' →
               (LastCrawled n ≤ nodes.lastUpdated r')%Z) ∧
  (tbl_nodes db = ∅ →
   (run (GetNextNode faults scan) db).1 = Err ErrNoRows) ∧
  committed (run (GetNextNode faults scan) db).2 = db.
Proof.
  intros Hscan H0. rewrite GetNextNode_run by done. simpl.
  split; [|split; [|done]].
  - intros Hne.
    destruct (order_by_lastUpdated_limit_1 (scan (tbl_nodes db)))
      as [[id r]|] eqn:Hsel.
    + apply order_by_lastUpdated_limit_1_Some in Hsel as [Hin Hmin].
      exists {| ID := id; LastCrawled := nodes.lastUpdated r;
                NodeProfile := zero_Profile |}, r.
      simpl. split; [done|].
      rewrite Hscan in Hin. apply elem_of_map_to_list in Hin.
      split; [done|]. split; [done|].
      intros id' r' Hr'. apply (Hmin (id', r')).
      rewrite Hscan. by apply elem_of_map_to_list.
    + apply order_by_lastUpdated_limit_1_None in Hsel.
      destruct Hne. apply map_to_list_empty_iff.
      apply Permutation_nil_r. by rewrite <- Hsel, Hscan.
  - intros Hempty. rewrite Hempty.
    assert (scan ∅ = []) as ->; [|done].
    apply Permutation_nil_r. by rewrite Hscan, map_to_list_empty.
Qed.

(** Three nodes, of which "B" was never crawled, and the empty store. *)
Lemma GetNextNode_oldest_first_witness :
  (∃ n r,
     (run (GetNextNode no_faults key_order) frontier_DB).1 = Ok n ∧
     tbl_nodes frontier_DB !! ID n = Some r ∧
     LastCrawled n = nodes.lastUpdated r ∧
     ∀ id' r', tbl_nodes frontier_DB !! id' = Some r' →
               (LastCrawled n ≤ nodes.lastUpdated r')%Z)
  ∧ (run (GetNextNode no_faults key_order) empty_DB).1 = Err ErrNoRows.
Proof.
  split.
  - apply (GetNextNode_oldest_first no_faults key_order frontier_DB);
      [intros t; reflexivity|reflexivity|vm_compute; discriminate].
  - apply (GetNextNode_oldest_first no_faults key_order empty_DB);
      [intros t; reflexivity|reflexivity|reflexivity].
Defined.

Example GetNextNode_frontier :
  (run (GetNextNode no_faults key_order) frontier_DB).1 =
    Ok {| ID := "B"; LastCrawled := never_crawled;
          NodeProfile := zero_Profile |}.
Proof. vm_compute. reflexivity. Qed.

(* ===================================================================== *)
(** ** AddUninitializedNodes *)
(* ===================================================================== *)

(** C7, as stated, fails for an id longer than the fifty characters of the
    id column: INSERT IGNORE does not refuse it, it stores its first fifty
    characters, so a successful AddUninitializedNodes of [long_id] into the
    empty store leaves no row under [long_id]. *)
Lemma AddUninitializedNodes_long_id_not_stored_as_given :
  ¬ (∀ faults l db c',
       run (AddUninitializedNodes faults l) db = (Ok tt, c') →
       ∀ n, n ∈ l → tbl_nodes db !! ID n = None →
            ∃ r', tbl_nodes (committed c') !! ID n = Some r' ∧
                  nodes.lastUpdated r' = 946684800%Z).
Proof.
  intros Hclaim.
  destruct (Hclaim no_faults [sample_node long_id "x" 0] empty_DB _
              (AddUninitializedNodes_total no_faults _ _ (λ _, eq_refl))
              (sample_node long_id "x" 0))
    as (r' & Hr' & _).
  - apply list_elem_of_here.
  - reflexivity.
  - vm_compute in Hr'. discriminate Hr'.
Qed.

(** C7 (amended): a successful AddUninitializedNodes gives every id of the
    batch, as the id column keeps it (the id itself when it has at most
    fifty characters, its first fifty otherwise), a row when it had none:
    lastUpdated '2000-01-01 00:00:00', every profile column NULL, listed and
    banned false. Every row that was there is as it was, those of the batch
    included; ids that are not a stored id of the batch and the items table
    are not touched. When no stored row is older than the sentinel, no row
    is older than the new ones, so they come first in the order of
    GetNextNode. *)
Theorem AddUninitializedNodes_insert_if_absent
    (faults : nat → bool) (l : list Node) (db : DB) (c' : Conn) :
  run (AddUninitializedNodes faults l) db = (Ok tt, c') →
  (∀ n, n ∈ l → tbl_nodes db !! truncate_id (ID n) = None →
        ∃ r', tbl_nodes (committed c') !! truncate_id (ID n) = Some r' ∧
              nodes.lastUpdated r' = 946684800%Z ∧
              profile_columns r' = unset_profile ∧
              nodes.listed r' = false ∧ nodes.banned r' = false) ∧
  (∀ n, n ∈ l → (String.length (ID n) ≤ 50)%nat →
        tbl_nodes db !! ID n = None →
        ∃ r', tbl_nodes (committed c') !! ID n = Some r' ∧
              nodes.lastUpdated r' = 946684800%Z ∧
              profile_columns r' = unset_profile ∧
              nodes.listed r' = false ∧ nodes.banned r' = false) ∧
  (∀ id r, tbl_nodes db !! id = Some r →
           tbl_nodes (committed c') !! id = Some r) ∧
  (∀ id, id ∉ stored_ids l →
         tbl_nodes (committed c') !! id = tbl_nodes db !! id) ∧
  tbl_items (committed c') = tbl_items db ∧
  ((∀ id r, tbl_nodes db !! id = Some r →
            (946684800 ≤ nodes.lastUpdated r)%Z) →
   ∀ id r, tbl_nodes (committed c') !! id = Some r →
           (946684800 ≤ nodes.lastUpdated r)%Z).
Proof.
  intros Hrun. apply AddUninitializedNodes_run in Hrun as ->.
  assert (Hnew : ∀ n, n ∈ l → tbl_nodes db !! truncate_id (ID n) = None →
            ∃ r', tbl_nodes (apply_all (λ n, stmt_enqueue_node (ID n)) l db)
                    !! truncate_id (ID n) = Some r' ∧
                  nodes.lastUpdated r' = 946684800%Z ∧
                  profile_columns r' = unset_profile ∧
                  nodes.listed r' = false ∧ nodes.banned r' = false).
  { intros n Hin Hfree. rewrite lookup_enqueued, Hfree.
    rewrite decide_True by by apply stored_ids_elem.
    eexists. split; [reflexivity|]. by repeat split. }
  split; [exact Hnew|]. split; [|split; [|split; [|split]]].
  - intros n Hin Hlen Hfree.
    rewrite <- (truncate_id_fits (ID n) Hlen) in Hfree |- *. by apply Hnew.
  - intros id r Hr. by rewrite lookup_enqueued, Hr.
  - intros id Hout. rewrite lookup_enqueued.
    destruct (tbl_nodes db !! id); [done|]. by rewrite decide_False.
  - apply tbl_items_enqueued.
  - intros Hold id r. rewrite lookup_enqueued.
    destruct (tbl_nodes db !! id) as [r0|] eqn:Hr0.
    + intros [= <-]. eauto.
    + case_decide; [|done]. intros [= <-]. simpl. unfold never_crawled. lia.
Qed.

(** In [frontier_DB], "A" is known, "D" is new, and [long_id] is new and
    longer than the column. *)
Lemma AddUninitializedNodes_insert_if_absent_witness :
  let c' := (run (AddUninitializedNodes no_faults
                    [sample_node "A" "a" 0; sample_node "D" "d" 0;
                     sample_node long_id "l" 0])
                 frontier_DB).2 in
  (∃ r', tbl_nodes (committed c') !! "D" = Some r' ∧
         nodes.lastUpdated r' = 946684800%Z ∧
         profile_columns r' = unset_profile ∧
         nodes.listed r' = false ∧ nodes.banned r' = false) ∧
  (∃ r', tbl_nodes (committed c') !! long_id_stored = Some r' ∧
         nodes.lastUpdated r' = 946684800%Z ∧
         profile_columns r' = unset_profile ∧
         nodes.listed r' = false ∧ nodes.banned r' = false) ∧
  tbl_nodes (committed c') !! long_id = None ∧
  tbl_nodes (committed c') !! "A" = Some (nodes.minimal 1700000000).
Proof.
  intros c'.
  destruct (AddUninitializedNodes_insert_if_absent no_faults
              [sample_node "A" "a" 0; sample_node "D" "d" 0;
               sample_node long_id "l" 0] frontier_DB c')
    as (Hstored & Hfits & Hold & Hout & _).
  - vm_compute. reflexivity.
  - split; [|split; [|split]].
    + apply (Hfits (sample_node "D" "d" 0)).
      * apply list_elem_of_further, list_elem_of_here.
      * vm_compute. lia.
      * vm_compute. reflexivity.
    + apply (Hstored (sample_node long_id "l" 0)).
      * do 2 apply list_elem_of_further. apply list_elem_of_here.
      * vm_compute. reflexivity.
    + rewrite Hout; [vm_compute; reflexivity|].
      apply long_id_not_stored. vm_compute. lia.
    + apply Hold. vm_compute. reflexivity.
Defined.

(* ===================================================================== *)
(** ** SaveNodeUninitialized *)
(* ===================================================================== *)

(** C8: a successful SaveNodeUninitialized at time [now] sets lastUpdated of
    the row of the node to [now] and leaves its other columns as they were
    when the row exists; when it does not, it creates the row with
    lastUpdated [now], every profile column NULL, listed and banned false;
    it changes no other row of either table. *)
Theorem SaveNodeUninitialized_touches_one_row
    (faults : nat → bool) (now : Z) (n : Node) (db : DB) (c' : Conn) :
  run (SaveNodeUninitialized faults now n) db = (Ok tt, c') →
  (∀ r, tbl_nodes db !! ID n = Some r →
        ∃ r', tbl_nodes (committed c') !! ID n = Some r' ∧
              nodes.lastUpdated r' = now ∧
              profile_columns r' = profile_columns r ∧
              nodes.listed r' = nodes.listed r ∧
              nodes.banned r' = nodes.banned r) ∧
  (tbl_nodes db !! ID n = None →
   ∃ r', tbl_nodes (committed c') !! ID n = Some r' ∧
         nodes.lastUpdated r' = now ∧
         profile_columns r' = unset_profile ∧
         nodes.listed r' = false ∧
         nodes.banned r' = false) ∧
  (∀ id, id ≠ ID n → tbl_nodes (committed c') !! id = tbl_nodes db !! id) ∧
  tbl_items (committed c') = tbl_items db.
Proof.
  intros Hrun. apply SaveNodeUninitialized_run in Hrun as ->.
  unfold stmt_touch_node. simpl. repeat split.
  - intros r Hr. exists (nodes.set_lastUpdated now r).
    by rewrite lookup_upsert_eq, Hr.
  - intros Hfree. exists (nodes.minimal now).
    by rewrite lookup_upsert_eq, Hfree.
  - intros id Hne. by rewrite lookup_upsert_ne.
Qed.

(** Touching "C", whose row carries a name and a listed flag, and touching
    the unknown "D". *)
Lemma SaveNodeUninitialized_touches_one_row_witness :
  (∃ r', tbl_nodes (committed
           (run (SaveNodeUninitialized no_faults 1800000000
                   (sample_node "C" EmptyString 0)) frontier_DB).2) !! "C" = Some r' ∧
         nodes.lastUpdated r' = 1800000000%Z ∧
         profile_columns r' = profile_columns listed_row ∧
         nodes.listed r' = true ∧
         nodes.banned r' = false)
  ∧ (∃ r', tbl_nodes (committed
             (run (SaveNodeUninitialized no_faults 1800000000
                     (sample_node "D" EmptyString 0)) frontier_DB).2) !! "D"
             = Some r' ∧
           nodes.lastUpdated r' = 1800000000%Z ∧
           profile_columns r' = unset_profile ∧
           nodes.listed r' = false ∧
           nodes.banned r' = false).
Proof.
  split.
  - destruct (SaveNodeUninitialized_touches_one_row no_faults 1800000000
                (sample_node "C" EmptyString 0) frontier_DB
                (run (SaveNodeUninitialized no_faults 1800000000
                        (sample_node "C" EmptyString 0)) frontier_DB).2)
      as (Hold & _); [vm_compute; reflexivity|].
    apply (Hold listed_row). vm_compute. reflexivity.
  - destruct (SaveNodeUninitialized_touches_one_row no_faults 1800000000
                (sample_node "D" EmptyString 0) frontier_DB
                (run (SaveNodeUninitialized no_faults 1800000000
                        (sample_node "D" EmptyString 0)) frontier_DB).2)
      as (_ & Hnew & _); [vm_compute; reflexivity|].
    apply Hnew. vm_compute. reflexivity.
Defined.

(* ===================================================================== *)
(** ** SaveNode and GetNode *)
(* ===================================================================== *)

(** The row of a node after the statement of SaveNode. *)
Lemma lookup_saved_node (now : Z) (n : Node) (db : DB) :
  tbl_nodes (stmt_save_node now n db) !! ID n =
    Some (match tbl_nodes db !! ID n with
          | Some r => profile_update now n r
          | None => profile_row now n
          end).
Proof. unfold stmt_save_node. simpl. apply lookup_upsert_eq. Qed.

(** C3, as stated, fails for [listed] and [banned]: SaveNode names neither
    column, so what the row holds in them after a save depends on the row
    from before and not on the node given. Saving the same node at the same
    time into the empty store and into [listed_DB] gives rows with
    different [listed]. *)
Lemma SaveNode_does_not_write_listed_banned :
  ¬ (∃ flags : Node → bool * bool,
       ∀ faults now n db c',
         run (SaveNode faults now n) db = (Ok tt, c') →
         ∃ r', tbl_nodes (committed c') !! ID n = Some r' ∧
               nodes.lastUpdated r' = now ∧
               profile_columns r' = profile_values n ∧
               (nodes.listed r', nodes.banned r') = flags n).
Proof.
  intros [flags Hclaim].
  destruct (Hclaim no_faults 1800000000%Z (sample_node "A" "X" 5) empty_DB _
              (one_statement_total no_faults _ _ (λ _, eq_refl)))
    as (r1 & Hr1 & _ & _ & Hf1).
  destruct (Hclaim no_faults 1800000000%Z (sample_node "A" "X" 5) listed_DB _
              (one_statement_total no_faults _ _ (λ _, eq_refl)))
    as (r2 & Hr2 & _ & _ & Hf2).
  vm_compute in Hr1, Hr2.
  injection Hr1 as <-. injection Hr2 as <-.
  rewrite <- Hf2 in Hf1. discriminate.
Qed.

(** C3 (amended): a successful SaveNode at time [now] leaves, for the id of
    the node, a row whose lastUpdated is [now] and whose name, handle,
    location, nsfw, vendor, moderator, about, shortDescription, the five
    counters and averageRating are the values of the node, whatever the row
    held before; [listed] and [banned] are not written: they keep the stored
    values of a row that existed and are false in a new row. *)
Theorem SaveNode_overwrites_profile
    (faults : nat → bool) (now : Z) (n : Node) (db : DB) (c' : Conn) :
  run (SaveNode faults now n) db = (Ok tt, c') →
  ∃ r', tbl_nodes (committed c') !! ID n = Some r' ∧
        nodes.lastUpdated r' = now ∧
        profile_columns r' = profile_values n ∧
        (nodes.listed r', nodes.banned r') =
          match tbl_nodes db !! ID n with
          | Some r => (nodes.listed r, nodes.banned r)
          | None => (false, false)
          end.
Proof.
  intros Hrun. apply SaveNode_run in Hrun as ->.
  rewrite lookup_saved_node. eexists. split; [reflexivity|].
  by destruct (tbl_nodes db !! ID n).
Qed.

Lemma SaveNode_overwrites_profile_witness :
  ∃ r', tbl_nodes (committed
          (run (SaveNode no_faults 1800000000 (sample_node "A" "X" 5))
               listed_DB).2) !! "A" = Some r' ∧
        nodes.lastUpdated r' = 1800000000%Z ∧
        profile_columns r' = profile_values (sample_node "A" "X" 5) ∧
        (nodes.listed r', nodes.banned r') = (true, false).
Proof.
  apply (SaveNode_overwrites_profile no_faults 1800000000
           (sample_node "A" "X" 5) listed_DB).
  vm_compute. reflexivity.
Defined.

(** C1, as stated, fails: GetNode selects [id] and [lastUpdated] only and
    scans them into a zero node, so the node it returns after the save of
    name "X" and followerCount 5 has the empty name and followerCount 0. *)
Lemma GetNode_does_not_return_profile :
  ¬ (∀ A now db c1,
       run (SaveNode no_faults now (sample_node A "X" 5)) db = (Ok tt, c1) →
       ∃ nd c2,
         run (GetNode no_faults A) (committed c1) = (Ok nd, c2) ∧
         Name (NodeProfile nd) = "X" ∧
         FollowerCount (ProfileStats (NodeProfile nd)) = 5%Z).
Proof.
  intros Hclaim.
  destruct (Hclaim "A" 1800000000%Z empty_DB _
              (one_statement_total no_faults _ _ (λ _, eq_refl)))
    as (nd & c2 & Hget & Hname & _).
  vm_compute in Hget. injection Hget as <- _.
  discriminate.
Qed.

(** C1 (amended): after a successful SaveNode of a node at time [now], a
    GetNode of its id whose two round trips reach the engine returns a node
    with that id and LastCrawled equal to [now]; its profile is the zero
    profile, as GetNode reads no profile column. The stored row does hold
    the saved values, name and followerCount among them. *)
Theorem GetNode_after_SaveNode
    (faults faults' : nat → bool) (now : Z) (n : Node) (db : DB) (c1 : Conn) :
  run (SaveNode faults now n) db = (Ok tt, c1) →
  faults' 0%nat = false →
  faults' 1%nat = false →
  (run (GetNode faults' (ID n)) (committed c1)).1 =
    Ok {| ID := ID n; LastCrawled := now; NodeProfile := zero_Profile |} ∧
  ∃ r, tbl_nodes (committed c1) !! ID n = Some r ∧
       nodes.name r = Some (Name (NodeProfile n)) ∧
       nodes.followerCount r =
         Some (FollowerCount (ProfileStats (NodeProfile n))).
Proof.
  intros Hrun H0 H1. apply SaveNode_run in Hrun as ->.
  rewrite GetNode_run by done. rewrite lookup_saved_node. simpl.
  split; [by destruct (tbl_nodes db !! ID n)|].
  eexists. split; [reflexivity|]. by destruct (tbl_nodes db !! ID n).
Qed.

Lemma GetNode_after_SaveNode_witness :
  (run (GetNode no_faults "A")
     (committed (run (SaveNode no_faults 1800000000 (sample_node "A" "X" 5))
                     empty_DB).2)).1 =
    Ok {| ID := "A"; LastCrawled := 1800000000; NodeProfile := zero_Profile |} ∧
  ∃ r, tbl_nodes
         (committed (run (SaveNode no_faults 1800000000 (sample_node "A" "X" 5))
                         empty_DB).2) !! "A" = Some r ∧
       nodes.name r = Some "X" ∧
       nodes.followerCount r = Some 5%Z.
Proof.
  apply (GetNode_after_SaveNode no_faults no_faults 1800000000
           (sample_node "A" "X" 5) empty_DB);
    [vm_compute; reflexivity|reflexivity|reflexivity].
Defined.

(* ===================================================================== *)
(** ** NewSQLDatastore *)
(* ===================================================================== *)

(** X1: NewSQLDatastore never loses a row. Whatever call fails, a table that
    existed holds the rows it held; when it returns a datastore, both tables
    exist, the ones it created being empty. *)
Theorem NewSQLDatastore_keeps_rows
    (faults : nat → bool) (e e' : Engine) (r : result unit) :
  NewSQLDatastore faults e = (r, e') →
  (∀ m, eng_nodes e = Some m → eng_nodes e' = Some m) ∧
  (∀ m, eng_items e = Some m → eng_items e' = Some m) ∧
  (r = Ok tt →
   tables e' = Some {| tbl_nodes := default ∅ (eng_nodes e);
                       tbl_items := default ∅ (eng_items e) |}).
Proof.
  unfold NewSQLDatastore. intros Hrun.
  destruct (faults 0%nat); [by inversion Hrun; subst|].
  destruct (faults 1%nat); inversion Hrun; subst; clear Hrun; simpl.
  - split; [by intros m ->|]. done.
  - split; [by intros m ->|]. split; [by intros m ->|]. intros _.
    unfold tables. simpl. by destruct (eng_nodes e), (eng_items e).
Qed.

(** An engine that has the nodes of [frontier_DB] and no items table. *)
Lemma NewSQLDatastore_keeps_rows_witness :
  let out := NewSQLDatastore no_faults
               {| eng_nodes := Some (tbl_nodes frontier_DB);
                  eng_items := None |} in
  eng_nodes out.2 = Some (tbl_nodes frontier_DB) ∧
  tables out.2 = Some frontier_DB.
Proof.
  intros out.
  destruct (NewSQLDatastore_keeps_rows no_faults
              {| eng_nodes := Some (tbl_nodes frontier_DB); eng_items := None |}
              out.2 out.1) as (Hn & _ & Ht).
  - vm_compute. reflexivity.
  - split; [by apply Hn|]. apply Ht. vm_compute. reflexivity.
Defined.

(** X2: creation is idempotent. On the engine a successful NewSQLDatastore
    leaves, a further NewSQLDatastore changes nothing, whether it gets
    through or not. *)
Theorem NewSQLDatastore_idempotent
    (faults faults' : nat → bool) (e e1 : Engine) :
  NewSQLDatastore faults e = (Ok tt, e1) →
  (NewSQLDatastore faults' e1).2 = e1 ∧
  (faults' 0%nat = false → faults' 1%nat = false →
   NewSQLDatastore faults' e1 = (Ok tt, e1)).
Proof.
  unfold NewSQLDatastore. intros Hrun.
  destruct (faults 0%nat); [discriminate|].
  destruct (faults 1%nat); [discriminate|].
  injection Hrun as <-. simpl.
  split.
  - destruct (faults' 0%nat); [done|].
    destruct (faults' 1%nat); simpl;
      by destruct (eng_nodes e), (eng_items e).
  - intros -> ->. simpl. by destruct (eng_nodes e), (eng_items e).
Qed.

Lemma NewSQLDatastore_idempotent_witness :
  (NewSQLDatastore (fault_at 1) (NewSQLDatastore no_faults fresh_Engine).2).2
    = (NewSQLDatastore no_faults fresh_Engine).2 ∧
  (no_faults 0%nat = false → no_faults 1%nat = false →
   NewSQLDatastore no_faults (NewSQLDatastore no_faults fresh_Engine).2
     = (Ok tt, (NewSQLDatastore no_faults fresh_Engine).2)).
Proof.
  destruct (NewSQLDatastore_idempotent no_faults (fault_at 1) fresh_Engine
              (NewSQLDatastore no_faults fresh_Engine).2 eq_refl) as [H1 _].
  destruct (NewSQLDatastore_idempotent no_faults no_faults fresh_Engine
              (NewSQLDatastore no_faults fresh_Engine).2 eq_refl) as [_ H2].
  split; assumption.
Defined.

(** X3: NewSQLDatastore is not all-or-nothing. When it returns an error the
    items table is as it was; the error of the first CREATE leaves the
    engine as it was, the error of the second leaves the nodes table
    created although no datastore is returned. *)
Theorem NewSQLDatastore_failure
    (faults : nat → bool) (e e' : Engine) (err : error) :
  NewSQLDatastore faults e = (Err err, e') →
  eng_items e' = eng_items e ∧
  ((err = ErrDriver 0 ∧ e' = e) ∨
   (err = ErrDriver 1 ∧ eng_nodes e' = Some (default ∅ (eng_nodes e)))).
Proof.
  unfold NewSQLDatastore. intros Hrun.
  destruct (faults 0%nat); [inversion Hrun; subst; eauto|].
  destruct (faults 1%nat); [|discriminate].
  inversion Hrun; subst; clear Hrun. simpl. split; [done|]. right.
  split; [done|]. by destruct (eng_nodes e).
Qed.

Lemma NewSQLDatastore_failure_witness :
  (NewSQLDatastore (fault_at 1) fresh_Engine).1 = Err (ErrDriver 1) ∧
  eng_items (NewSQLDatastore (fault_at 1) fresh_Engine).2 = None ∧
  eng_nodes (NewSQLDatastore (fault_at 1) fresh_Engine).2 = Some ∅.
Proof.
  destruct (NewSQLDatastore_failure (fault_at 1) fresh_Engine
              (NewSQLDatastore (fault_at 1) fresh_Engine).2 (ErrDriver 1)
              eq_refl) as [Hi [[Herr _]|[_ Hn]]].
  - discriminate Herr.
  - split; [reflexivity|]. split; [exact Hi|exact Hn].
Defined.

(* ===================================================================== *)
(** ** Failed writes *)
(* ===================================================================== *)

Lemma DB_eq (db1 db2 : DB) :
  tbl_nodes db1 = tbl_nodes db2 → tbl_items db1 = tbl_items db2 → db1 = db2.
Proof. destruct db1, db2. simpl. by intros -> ->. Qed.

(** One statement in one transaction, the run having failed: which call
    failed, and what became of the transaction. *)
Lemma one_statement_failed (faults : nat → bool) (stmt : DB → DB) (db : DB)
    (e : error) (c' : Conn) :
  run (Begin faults ;; Prepare faults ;; Exec faults stmt ;; Commit faults) db
    = (Err e, c') →
  committed c' = db ∧
  ∃ k, e = ErrDriver k ∧ faults k = true ∧ (k ≤ 3)%nat ∧
       tx c' = if decide (k = 1 ∨ k = 2)%nat then Some db else None.
Proof.
  unfold run. intros Hm.
  assert (Hclose : ∀ (k : nat) (t : option DB),
            faults k = true → (k ≤ 3)%nat →
            t = (if decide (k = 1 ∨ k = 2)%nat then Some db else None) →
            ∃ k', ErrDriver k = ErrDriver k' ∧ faults k' = true ∧
                  (k' ≤ 3)%nat ∧
                  t = if decide (k' = 1 ∨ k' = 2)%nat then Some db else None)
    by (intros k t ? ? ?; by exists k).
  rewrite bind_run, Begin_run in Hm. cbn [calls committed tx] in Hm.
  destruct (faults 0%nat) eqn:H0.
  { inversion Hm; subst. split; [done|]. apply Hclose; [done|lia|done]. }
  rewrite bind_run, Prepare_run in Hm. cbn [calls committed tx] in Hm.
  destruct (faults 1%nat) eqn:H1.
  { inversion Hm; subst. split; [done|]. apply Hclose; [done|lia|done]. }
  rewrite bind_run, (Exec_run faults stmt _ db) in Hm by reflexivity.
  cbn [calls committed tx] in Hm.
  destruct (faults 2%nat) eqn:H2.
  { inversion Hm; subst. split; [done|]. apply Hclose; [done|lia|done]. }
  erewrite Commit_run in Hm by reflexivity. cbn [calls] in Hm.
  destruct (faults 3%nat) eqn:H3; [|discriminate].
  inversion Hm; subst. split; [done|]. apply Hclose; [done|lia|done].
Qed.

(** X4: a failed SaveNode or SaveNodeUninitialized returns the error of the
    call that failed and commits nothing; nothing rolls the transaction
    back, so a failure of Prepare or of Exec leaves it open, on the tables
    as they were. *)
Theorem SaveNode_failure_leaves_transaction
    (faults : nat → bool) (now : Z) (n : Node) (db : DB)
    (e : error) (c' : Conn) :
  run (SaveNode faults now n) db = (Err e, c') ∨
  run (SaveNodeUninitialized faults now n) db = (Err e, c') →
  committed c' = db ∧
  ∃ k, e = ErrDriver k ∧ faults k = true ∧ (k ≤ 3)%nat ∧
       tx c' = if decide (k = 1 ∨ k = 2)%nat then Some db else None.
Proof. intros [Hrun|Hrun]; by apply one_statement_failed in Hrun. Qed.

(** The engine refuses the INSERT of SaveNode. *)
Lemma SaveNode_failure_leaves_transaction_witness :
  let out := run (SaveNode (fault_at 2) 1800000000 (sample_node "A" "X" 5))
                 listed_DB in
  out.1 = Err (ErrDriver 2) ∧ committed out.2 = listed_DB ∧
  tx out.2 = Some listed_DB.
Proof.
  intros out.
  destruct (SaveNode_failure_leaves_transaction (fault_at 2) 1800000000
              (sample_node "A" "X" 5) listed_DB (ErrDriver 2) out.2)
    as (Hc & k & Hk & _ & _ & Htx).
  - left. vm_compute. reflexivity.
  - injection Hk as <-. split; [vm_compute; reflexivity|]. by split.
Defined.

(** X5: AddUninitializedNodes commits the whole batch or nothing of it: a
    run that fails, at whatever node of the batch, leaves the committed
    tables as they were; a run that gets through has a row for every id of
    the batch, under the id as the id column keeps it, which is the id
    itself when it has at most fifty characters. *)
Theorem AddUninitializedNodes_all_or_nothing
    (faults : nat → bool) (l : list Node) (db : DB)
    (r : result unit) (c' : Conn) :
  run (AddUninitializedNodes faults l) db = (r, c') →
  (∃ e, r = Err e ∧ committed c' = db) ∨
  (r = Ok tt ∧
   (∀ n, n ∈ l → is_Some (tbl_nodes (committed c') !! truncate_id (ID n))) ∧
   (∀ n, n ∈ l → (String.length (ID n) ≤ 50)%nat →
         is_Some (tbl_nodes (committed c') !! ID n))).
Proof.
  intros Hrun. apply AddUninitializedNodes_run in Hrun.
  destruct r as [[]|e]; [right|left; eauto].
  assert (Hall : ∀ n, n ∈ l →
            is_Some (tbl_nodes (committed c') !! truncate_id (ID n))).
  { intros n Hin. rewrite Hrun, lookup_enqueued.
    destruct (tbl_nodes db !! truncate_id (ID n)); [eauto|].
    rewrite decide_True; [eauto|]. by apply stored_ids_elem. }
  split; [done|]. split; [exact Hall|].
  intros n Hin Hlen. rewrite <- (truncate_id_fits (ID n) Hlen). by apply Hall.
Qed.

(** The engine refuses the INSERT of the second of two nodes. *)
Lemma AddUninitializedNodes_all_or_nothing_witness :
  let out := run (AddUninitializedNodes (fault_at 4)
                    [sample_node "D" "d" 0; sample_node "E" "e" 0])
                 frontier_DB in
  out.1 = Err (ErrDriver 4) ∧ committed out.2 = frontier_DB.
Proof.
  intros out. split; [vm_compute; reflexivity|].
  destruct (AddUninitializedNodes_all_or_nothing (fault_at 4)
              [sample_node "D" "d" 0; sample_node "E" "e" 0] frontier_DB
              out.1 out.2) as [(e & _ & Hc)|(Hok & _)].
  - vm_compute. reflexivity.
  - exact Hc.
  - vm_compute in Hok. discriminate Hok.
Defined.

(* ===================================================================== *)
(** ** The frontier *)
(* ===================================================================== *)

Section Frontier.

Variable scan : gmap string nodes.row → list (string * nodes.row).
Hypothesis scan_perm : ∀ t, scan t ≡ₚ map_to_list t.

(** What ORDER BY ... LIMIT 1 selects from a table, in any engine order. *)
Lemma select_oldest (t : gmap string nodes.row) :
  match order_by_lastUpdated_limit_1 (scan t) with
  | Some kr =>
      t !! kr.1 = Some kr.2 ∧
      ∀ id r, t !! id = Some r →
              (nodes.lastUpdated kr.2 ≤ nodes.lastUpdated r)%Z
  | None => t = ∅
  end.
Proof.
  destruct (order_by_lastUpdated_limit_1 (scan t)) as [[id r]|] eqn:Hsel.
  - apply order_by_lastUpdated_limit_1_Some in Hsel as [Hin Hmin].
    rewrite scan_perm in Hin. apply elem_of_map_to_list in Hin.
    split; [done|]. intros id' r' Hr'. apply (Hmin (id', r')).
    rewrite scan_perm. by apply elem_of_map_to_list.
  - apply order_by_lastUpdated_limit_1_None in Hsel.
    apply map_to_list_empty_iff, Permutation_nil_r.
    by rewrite <- Hsel, scan_perm.
Qed.

(** A row that has a strictly older row beside it is not selected. *)
Lemma select_skips (t : gmap string nodes.row) (id id' : string)
    (r r' : nodes.row) :
  t !! id = Some r → t !! id' = Some r' →
  (nodes.lastUpdated r' < nodes.lastUpdated r)%Z →
  ∃ kr, order_by_lastUpdated_limit_1 (scan t) = Some kr ∧ kr.1 ≠ id.
Proof.
  intros Hr Hr' Hlt. pose proof (select_oldest t) as Hsel.
  destruct (order_by_lastUpdated_limit_1 (scan t)) as [kr|].
  - exists kr. split; [done|]. destruct Hsel as [Hkr Hmin].
    intros Heq. rewrite Heq, Hr in Hkr. injection Hkr as Hkr.
    specialize (Hmin id' r' Hr'). rewrite <- Hkr in Hmin. lia.
  - rewrite Hsel in Hr. by rewrite lookup_empty in Hr.
Qed.

End Frontier.

(** X6: the time GetNextNode returns does not depend on the order in which
    the engine produces the rows: two engines give nodes with the same
    LastCrawled on the same table, or both find no row. Which of several
    equally old nodes comes back is the engine's choice. *)
Theorem GetNextNode_time_independent_of_engine
    (faults faults' : nat → bool)
    (scan scan' : gmap string nodes.row → list (string * nodes.row))
    (db : DB) :
  (∀ t, scan t ≡ₚ map_to_list t) →
  (∀ t, scan' t ≡ₚ map_to_list t) →
  faults 0%nat = false → faults' 0%nat = false →
  match (run (GetNextNode faults scan) db).1,
        (run (GetNextNode faults' scan') db).1 with
  | Ok n, Ok n' => LastCrawled n = LastCrawled n'
  | Err e, Err e' => e = ErrNoRows ∧ e' = ErrNoRows
  | _, _ => False
  end.
Proof.
  intros Hs Hs' H0 H0'. rewrite !GetNextNode_run by done. simpl.
  pose proof (select_oldest scan Hs (tbl_nodes db)) as Hsel.
  pose proof (select_oldest scan' Hs' (tbl_nodes db)) as Hsel'.
  destruct (order_by_lastUpdated_limit_1 (scan (tbl_nodes db))) as [kr|],
    (order_by_lastUpdated_limit_1 (scan' (tbl_nodes db))) as [kr'|]; simpl.
  - destruct Hsel as [Hk Hmin], Hsel' as [Hk' Hmin'].
    specialize (Hmin _ _ Hk'). specialize (Hmin' _ _ Hk). lia.
  - destruct Hsel as [Hk _]. rewrite Hsel' in Hk. by rewrite lookup_empty in Hk.
  - destruct Hsel' as [Hk _]. rewrite Hsel in Hk. by rewrite lookup_empty in Hk.
  - done.
Qed.

(** An engine that produces the rows in reverse key order. *)
Lemma GetNextNode_time_independent_of_engine_witness :
  match (run (GetNextNode no_faults key_order) frontier_DB).1,
        (run (GetNextNode no_faults (λ t, reverse (map_to_list t)))
             frontier_DB).1 with
  | Ok n, Ok n' => LastCrawled n = LastCrawled n'
  | Err e, Err e' => e = ErrNoRows ∧ e' = ErrNoRows
  | _, _ => False
  end.
Proof.
  apply (GetNextNode_time_independent_of_engine no_faults no_faults key_order
           (λ t, reverse (map_to_list t)) frontier_DB).
  - intros t. reflexivity.
  - intros t. apply reverse_Permutation.
  - reflexivity.
  - reflexivity.
Defined.

(** X7: a crawl sends the node to the back of the frontier. After a
    successful SaveNodeUninitialized or SaveNode of a node at a time later
    than the lastUpdated of some other stored node, GetNextNode returns a
    node other than the one just saved. *)
Theorem GetNextNode_after_save_is_another_node
    (faults faults' : nat → bool)
    (scan : gmap string nodes.row → list (string * nodes.row))
    (now : Z) (n : Node) (db : DB) (c1 : Conn) (id' : string) (r' : nodes.row) :
  run (SaveNodeUninitialized faults now n) db = (Ok tt, c1) ∨
  run (SaveNode faults now n) db = (Ok tt, c1) →
  (∀ t, scan t ≡ₚ map_to_list t) →
  faults' 0%nat = false →
  id' ≠ ID n →
  tbl_nodes db !! id' = Some r' →
  (nodes.lastUpdated r' < now)%Z →
  ∃ nd, (run (GetNextNode faults' scan) (committed c1)).1 = Ok nd ∧
        ID nd ≠ ID n.
Proof.
  intros Hrun Hscan H0 Hne Hr' Hlt. rewrite GetNextNode_run by done. simpl.
  assert (∃ r, tbl_nodes (committed c1) !! ID n = Some r ∧
               nodes.lastUpdated r = now ∧
               tbl_nodes (committed c1) !! id' = Some r') as (r & Hr & Hnow & Hr1).
  { destruct Hrun as [Hrun|Hrun].
    - apply SaveNodeUninitialized_run in Hrun as ->.
      unfold stmt_touch_node. simpl.
      rewrite lookup_upsert_eq, lookup_upsert_ne by done.
      eexists. split; [reflexivity|].
      split; [by destruct (tbl_nodes db !! ID n)|done].
    - apply SaveNode_run in Hrun as ->.
      rewrite lookup_saved_node. unfold stmt_save_node. simpl.
      rewrite lookup_upsert_ne by done.
      eexists. split; [reflexivity|].
      split; [by destruct (tbl_nodes db !! ID n)|done]. }
  destruct (select_skips scan Hscan _ (ID n) id' r r' Hr Hr1) as (kr & -> & Hk);
    [lia|].
  eexists. split; [reflexivity|]. done.
Qed.

(** Node "A" of [frontier_DB] is crawled while "B" has never been. *)
Lemma GetNextNode_after_save_is_another_node_witness :
  ∃ nd,
    (run (GetNextNode no_faults key_order)
       (committed (run (SaveNodeUninitialized no_faults 1800000000
                          (sample_node "A" "a" 0)) frontier_DB).2)).1 = Ok nd ∧
    ID nd ≠ "A".
Proof.
  apply (GetNextNode_after_save_is_another_node no_faults no_faults key_order
           1800000000 (sample_node "A" "a" 0) frontier_DB _ "B"
           (nodes.minimal never_crawled)).
  - left. vm_compute. reflexivity.
  - intros t. reflexivity.
  - reflexivity.
  - vm_compute. discriminate.
  - vm_compute. reflexivity.
  - vm_compute. reflexivity.
Defined.

(** The stored ids of a batch all of whose ids fit the column are its
    ids. *)
Lemma stored_ids_fit (l : list Node) (id : string) :
  (∀ m, m ∈ l → (String.length (ID m) ≤ 50)%nat) →
  id ∈ stored_ids l → id ∈ map ID l.
Proof.
  intros Hfit Hin. apply list_elem_of_fmap in Hin as (m & -> & Hm).
  rewrite (truncate_id_fits (ID m) (Hfit m Hm)).
  apply list_elem_of_fmap. eauto.
Qed.

(** X8: newly discovered nodes are crawled first. After a successful
    AddUninitializedNodes that brought at least one new id into a table all
    of whose rows were crawled after '2000-01-01 00:00:00', GetNextNode
    returns, with that time, one of the new ids of the batch as the id
    column keeps them: an id of the batch when all of them have at most
    fifty characters, and possibly the first fifty characters of a longer
    one otherwise. *)
Theorem GetNextNode_after_enqueue_is_new_node
    (faults faults' : nat → bool)
    (scan : gmap string nodes.row → list (string * nodes.row))
    (l : list Node) (db : DB) (c1 : Conn) (n : Node) :
  run (AddUninitializedNodes faults l) db = (Ok tt, c1) →
  (∀ t, scan t ≡ₚ map_to_list t) →
  faults' 0%nat = false →
  n ∈ l →
  tbl_nodes db !! truncate_id (ID n) = None →
  (∀ id r, tbl_nodes db !! id = Some r →
           (946684800 < nodes.lastUpdated r)%Z) →
  ∃ nd, (run (GetNextNode faults' scan) (committed c1)).1 = Ok nd ∧
        LastCrawled nd = 946684800%Z ∧
        ID nd ∈ stored_ids l ∧
        ((∀ m, m ∈ l → (String.length (ID m) ≤ 50)%nat) →
         ID nd ∈ map ID l) ∧
        tbl_nodes db !! ID nd = None.
Proof.
  intros Hrun Hscan H0 Hin Hfree Hold. rewrite GetNextNode_run by done. simpl.
  apply AddUninitializedNodes_run in Hrun as ->.
  set (t := tbl_nodes (apply_all (λ n, stmt_enqueue_node (ID n)) l db)).
  assert (t !! truncate_id (ID n) = Some (nodes.minimal never_crawled)) as Hn.
  { unfold t. rewrite lookup_enqueued, Hfree.
    rewrite decide_True; [done|]. by apply stored_ids_elem. }
  pose proof (select_oldest scan Hscan t) as Hsel.
  destruct (order_by_lastUpdated_limit_1 (scan t)) as [[id r]|].
  - simpl in *. destruct Hsel as [Hr Hmin].
    specialize (Hmin _ _ Hn). simpl in Hmin. unfold never_crawled in Hmin.
    eexists. split; [reflexivity|]. simpl.
    unfold t in Hr. rewrite lookup_enqueued in Hr.
    destruct (tbl_nodes db !! id) as [r0|] eqn:Hr0.
    + injection Hr as <-. specialize (Hold _ _ Hr0). lia.
    + case_decide as Hid; [|done]. injection Hr as <-.
      split; [done|]. split; [done|]. split; [|done].
      intros Hfit. by apply stored_ids_fit.
  - rewrite Hsel in Hn. by rewrite lookup_empty in Hn.
Qed.

(** "D" is discovered in a store whose two nodes have been crawled. *)
Lemma GetNextNode_after_enqueue_is_new_node_witness :
  ∃ nd,
    (run (GetNextNode no_faults key_order)
       (committed (run (AddUninitializedNodes no_faults
                          [sample_node "A" "a" 0; sample_node "D" "d" 0])
                       (perform_all sample_history empty_DB)).2)).1 = Ok nd ∧
    LastCrawled nd = 946684800%Z ∧
    ID nd ∈ stored_ids [sample_node "A" "a" 0; sample_node "D" "d" 0] ∧
    ((∀ m, m ∈ [sample_node "A" "a" 0; sample_node "D" "d" 0] →
           (String.length (ID m) ≤ 50)%nat) →
     ID nd ∈ map ID [sample_node "A" "a" 0; sample_node "D" "d" 0]) ∧
    tbl_nodes (perform_all sample_history empty_DB) !! ID nd = None.
Proof.
  apply (GetNextNode_after_enqueue_is_new_node no_faults no_faults key_order
           [sample_node "A" "a" 0; sample_node "D" "d" 0]
           (perform_all sample_history empty_DB) _ (sample_node "D" "d" 0)).
  - vm_compute. reflexivity.
  - intros t. reflexivity.
  - reflexivity.
  - apply list_elem_of_further, list_elem_of_here.
  - vm_compute. reflexivity.
  - intros id r Hr.
    assert (id = "A" ∨ id = "B") as [->| ->].
    { destruct (decide (id = "A")) as [|Ha]; [by left|].
      destruct (decide (id = "B")) as [|Hb]; [by right|].
      exfalso. revert Hr.
      replace (tbl_nodes (perform_all sample_history empty_DB))
        with (<["A" := nodes.set_lastUpdated 1700000100
                         (nodes.minimal never_crawled)]>
              (<["B" := profile_row 1700000200 (sample_node "B" "Y" 7)]>
               (∅ : gmap string nodes.row)))
        by (vm_compute; reflexivity).
      by rewrite !lookup_insert_ne, lookup_empty by done. }
    + vm_compute in Hr. injection Hr as <-. vm_compute. reflexivity.
    + vm_compute in Hr. injection Hr as <-. vm_compute. reflexivity.
Defined.

(** X9: the node GetNextNode returns is a stored node: GetNode of its id
    returns the same node, id and time. *)
Theorem GetNode_of_next_node
    (faults faults' : nat → bool)
    (scan : gmap string nodes.row → list (string * nodes.row))
    (db : DB) (nd : Node) :
  (∀ t, scan t ≡ₚ map_to_list t) →
  faults' 0%nat = false → faults' 1%nat = false →
  (run (GetNextNode faults scan) db).1 = Ok nd →
  (run (GetNode faults' (ID nd)) db).1 = Ok nd.
Proof.
  intros Hscan H0 H1 Hrun. rewrite GetNode_run by done. simpl.
  unfold run, GetNextNode in Hrun. rewrite bind_run, QueryRow_run in Hrun.
  cbn [calls committed tx] in Hrun.
  destruct (faults 0%nat); [discriminate|]. unfold select_next in Hrun.
  pose proof (select_oldest scan Hscan (tbl_nodes db)) as Hsel.
  destruct (order_by_lastUpdated_limit_1 (scan (tbl_nodes db))) as [[id r]|];
    [|discriminate].
  simpl in *. destruct Hsel as [Hr _].
  injection Hrun as <-. simpl. by rewrite Hr.
Qed.

Lemma GetNode_of_next_node_witness :
  (run (GetNode no_faults "B") frontier_DB).1 =
    Ok {| ID := "B"; LastCrawled := never_crawled;
          NodeProfile := zero_Profile |}.
Proof.
  apply (GetNode_of_next_node no_faults no_faults key_order frontier_DB
           {| ID := "B"; LastCrawled := never_crawled;
              NodeProfile := zero_Profile |}).
  - intros t. reflexivity.
  - reflexivity.
  - reflexivity.
  - vm_compute. reflexivity.
Defined.

(** X10: GetNode of an id that has no row always fails, with sql.ErrNoRows
    when both round trips reach the engine; it creates no row and changes
    no table, whatever fails. *)
Theorem GetNode_unknown_id
    (faults : nat → bool) (id : string) (db : DB) :
  tbl_nodes db !! id = None →
  ∃ e, (run (GetNode faults id) db).1 = Err e ∧
       (faults 0%nat = false → faults 1%nat = false → e = ErrNoRows) ∧
       committed (run (GetNode faults id) db).2 = db ∧
       tx (run (GetNode faults id) db).2 = None.
Proof.
  intros Hfree. unfold run, GetNode.
  rewrite bind_run, Prepare_run. cbn [calls committed tx].
  destruct (faults 0%nat); [by eexists|].
  rewrite bind_run, QueryRow_run. cbn [calls committed tx].
  destruct (faults 1%nat); [by eexists|].
  unfold select_node. rewrite Hfree. simpl. by eexists.
Qed.

Lemma GetNode_unknown_id_witness :
  ∃ e, (run (GetNode no_faults "Z") frontier_DB).1 = Err e ∧
       (no_faults 0%nat = false → no_faults 1%nat = false → e = ErrNoRows) ∧
       committed (run (GetNode no_faults "Z") frontier_DB).2 = frontier_DB ∧
       tx (run (GetNode no_faults "Z") frontier_DB).2 = None.
Proof.
  apply (GetNode_unknown_id no_faults "Z" frontier_DB).
  vm_compute. reflexivity.
Defined.

(* ===================================================================== *)
(** ** Batches of discovered nodes *)
(* ===================================================================== *)

(** X11: what AddUninitializedNodes commits depends only on the set of ids of
    the batch: two batches with the same ids, in any order and with any
    repetition, and whatever else their nodes carry, leave the same
    tables. *)
Theorem AddUninitializedNodes_set_of_ids
    (faults faults' : nat → bool) (l l' : list Node) (db : DB) (c c' : Conn) :
  (∀ id, id ∈ map ID l ↔ id ∈ map ID l') →
  run (AddUninitializedNodes faults l) db = (Ok tt, c) →
  run (AddUninitializedNodes faults' l') db = (Ok tt, c') →
  committed c = committed c'.
Proof.
  intros Hids Hrun Hrun'.
  apply AddUninitializedNodes_run in Hrun as ->.
  apply AddUninitializedNodes_run in Hrun' as ->.
  apply DB_eq; [|by rewrite !tbl_items_enqueued].
  assert (Hstored : ∀ id, id ∈ stored_ids l ↔ id ∈ stored_ids l').
  { intros id. unfold stored_ids. rewrite !list_elem_of_fmap. split.
    - intros (n & -> & Hn).
      assert (ID n ∈ map ID l') as (n' & Hid & Hn')%list_elem_of_fmap
        by (apply Hids, list_elem_of_fmap; eauto).
      exists n'. by rewrite Hid.
    - intros (n & -> & Hn).
      assert (ID n ∈ map ID l) as (n' & Hid & Hn')%list_elem_of_fmap
        by (apply Hids, list_elem_of_fmap; eauto).
      exists n'. by rewrite Hid. }
  apply map_eq. intros id. rewrite !lookup_enqueued.
  destruct (tbl_nodes db !! id); [done|].
  destruct (decide (id ∈ stored_ids l)) as [Hin|Hout].
  - rewrite decide_True; [done|]. by apply Hstored.
  - rewrite decide_False; [done|]. by rewrite <- Hstored.
Qed.

Lemma AddUninitializedNodes_set_of_ids_witness :
  committed (run (AddUninitializedNodes no_faults
                    [sample_node "D" "d" 0; sample_node "E" "e" 0])
                 frontier_DB).2 =
  committed (run (AddUninitializedNodes no_faults
                    [sample_node "E" "x" 9; sample_node "D" "y" 3;
                     sample_node "E" "e" 0])
                 frontier_DB).2.
Proof.
  apply (AddUninitializedNodes_set_of_ids no_faults no_faults
           [sample_node "D" "d" 0; sample_node "E" "e" 0]
           [sample_node "E" "x" 9; sample_node "D" "y" 3; sample_node "E" "e" 0]
           frontier_DB).
  - intros id. simpl. rewrite !elem_of_cons, !elem_of_nil. tauto.
  - vm_compute. reflexivity.
  - vm_compute. reflexivity.
Defined.

(** X12: enqueueing known nodes is a no-op. A successful
    AddUninitializedNodes all of whose ids have a row, under the id as the
    id column keeps it (the id itself when it has at most fifty characters),
    leaves both tables as they were; so does, in particular, the repetition
    of a batch. *)
Theorem AddUninitializedNodes_known_ids
    (faults : nat → bool) (l : list Node) (db : DB) (c : Conn) :
  (∀ n, n ∈ l → is_Some (tbl_nodes db !! truncate_id (ID n))) →
  run (AddUninitializedNodes faults l) db = (Ok tt, c) →
  committed c = db.
Proof.
  intros Hknown Hrun. apply AddUninitializedNodes_run in Hrun as ->.
  apply DB_eq; [|by rewrite tbl_items_enqueued].
  apply map_eq. intros id. rewrite lookup_enqueued.
  destruct (tbl_nodes db !! id) eqn:Hid; [done|].
  case_decide as Hin; [|done].
  apply list_elem_of_fmap in Hin as (n & -> & Hin).
  destruct (Hknown n Hin) as [r Hr]. congruence.
Qed.

(** The batch of "D" and "E" a second time. *)
Lemma AddUninitializedNodes_known_ids_witness :
  let db1 := committed (run (AddUninitializedNodes no_faults
                               [sample_node "D" "d" 0; sample_node "E" "e" 0])
                            frontier_DB).2 in
  committed (run (AddUninitializedNodes no_faults
                    [sample_node "D" "d" 0; sample_node "E" "e" 0]) db1).2
  = db1.
Proof.
  intros db1.
  apply (AddUninitializedNodes_known_ids no_faults
           [sample_node "D" "d" 0; sample_node "E" "e" 0] db1).
  - intros n [->|[->|Hn%elem_of_nil]%elem_of_cons]%elem_of_cons;
      [| |done]; vm_compute; eauto.
  - vm_compute. reflexivity.
Defined.

(** X13: GetNode after AddUninitializedNodes. For an id of a batch that was
    committed, GetNode of the id as the id column keeps it returns the time
    the row had before the batch when there was one, and
    '2000-01-01 00:00:00' when the batch created it; that is GetNode of the
    id itself when the id has at most fifty characters. GetNode of a longer
    id finds no row. *)
Theorem GetNode_after_AddUninitializedNodes
    (faults faults' : nat → bool) (l : list Node) (db : DB) (c : Conn)
    (n : Node) :
  run (AddUninitializedNodes faults l) db = (Ok tt, c) →
  n ∈ l →
  faults' 0%nat = false → faults' 1%nat = false →
  (run (GetNode faults' (truncate_id (ID n))) (committed c)).1 =
    Ok {| ID := truncate_id (ID n);
          LastCrawled :=
            match tbl_nodes db !! truncate_id (ID n) with
            | Some r => nodes.lastUpdated r
            | None => 946684800%Z
            end;
          NodeProfile := zero_Profile |} ∧
  ((String.length (ID n) ≤ 50)%nat →
   (run (GetNode faults' (ID n)) (committed c)).1 =
     Ok {| ID := ID n;
           LastCrawled :=
             match tbl_nodes db !! ID n with
             | Some r => nodes.lastUpdated r
             | None => 946684800%Z
             end;
           NodeProfile := zero_Profile |}) ∧
  ((50 < String.length (ID n))%nat →
   tbl_nodes db !! ID n = None →
   (run (GetNode faults' (ID n)) (committed c)).1 = Err ErrNoRows).
Proof.
  intros Hrun Hin H0 H1. apply AddUninitializedNodes_run in Hrun as ->.
  assert (Hstored :
    (run (GetNode faults' (truncate_id (ID n)))
       (apply_all (λ n, stmt_enqueue_node (ID n)) l db)).1 =
    Ok {| ID := truncate_id (ID n);
          LastCrawled :=
            match tbl_nodes db !! truncate_id (ID n) with
            | Some r => nodes.lastUpdated r
            | None => 946684800%Z
            end;
          NodeProfile := zero_Profile |}).
  { rewrite GetNode_run by done. simpl. rewrite lookup_enqueued.
    destruct (tbl_nodes db !! truncate_id (ID n)); [done|].
    rewrite decide_True; [done|]. by apply stored_ids_elem. }
  split; [exact Hstored|]. split.
  - intros Hlen. by rewrite (truncate_id_fits (ID n) Hlen) in Hstored.
  - intros Hlong Hfree. rewrite GetNode_run by done. simpl.
    rewrite lookup_enqueued, Hfree.
    rewrite decide_False; [done|]. by apply long_id_not_stored.
Qed.

(** "D" and [long_id] are new to [frontier_DB]. *)
Lemma GetNode_after_AddUninitializedNodes_witness :
  let db1 := committed (run (AddUninitializedNodes no_faults
                               [sample_node "D" "d" 0;
                                sample_node long_id "l" 0])
                            frontier_DB).2 in
  (run (GetNode no_faults "D") db1).1 =
    Ok {| ID := "D"; LastCrawled := 946684800;
          NodeProfile := zero_Profile |} ∧
  (run (GetNode no_faults long_id_stored) db1).1 =
    Ok {| ID := long_id_stored; LastCrawled := 946684800;
          NodeProfile := zero_Profile |} ∧
  (run (GetNode no_faults long_id) db1).1 = Err ErrNoRows.
Proof.
  intros db1.
  destruct (GetNode_after_AddUninitializedNodes no_faults no_faults
              [sample_node "D" "d" 0; sample_node long_id "l" 0] frontier_DB
              (run (AddUninitializedNodes no_faults
                      [sample_node "D" "d" 0; sample_node long_id "l" 0])
                   frontier_DB).2
              (sample_node "D" "d" 0)) as (_ & Hshort & _).
  { vm_compute. reflexivity. }
  { apply list_elem_of_here. }
  { reflexivity. }
  { reflexivity. }
  destruct (GetNode_after_AddUninitializedNodes no_faults no_faults
              [sample_node "D" "d" 0; sample_node long_id "l" 0] frontier_DB
              (run (AddUninitializedNodes no_faults
                      [sample_node "D" "d" 0; sample_node long_id "l" 0])
                   frontier_DB).2
              (sample_node long_id "l" 0)) as (Hstored & _ & Hlong).
  { vm_compute. reflexivity. }
  { apply list_elem_of_further, list_elem_of_here. }
  { reflexivity. }
  { reflexivity. }
  split; [|split].
  - apply Hshort. vm_compute. lia.
  - exact Hstored.
  - apply Hlong; [vm_compute; lia|vm_compute; reflexivity].
Defined.

(* ===================================================================== *)
(** ** Saving over earlier writes *)
(* ===================================================================== *)

(** The statement of SaveNode after a statement of SaveNodeUninitialized or
    of SaveNode on the same id: the earlier one leaves no trace. *)
Lemma stmt_save_node_after (now1 now2 : Z) (n1 n2 : Node) (db : DB) :
  ID n1 = ID n2 →
  stmt_save_node now2 n2 (stmt_touch_node now1 (ID n1) db)
    = stmt_save_node now2 n2 db ∧
  stmt_save_node now2 n2 (stmt_save_node now1 n1 db)
    = stmt_save_node now2 n2 db.
Proof.
  intros Hid. split; (apply DB_eq; [|done]); apply map_eq; intros id;
    unfold stmt_save_node, stmt_touch_node; simpl; rewrite Hid;
    (destruct (decide (ID n2 = id)) as [<-|Hne];
     [rewrite !lookup_upsert_eq; by destruct (tbl_nodes db !! ID n2)
     |by rewrite !lookup_upsert_ne by done]).
Qed.

(** X14: the last SaveNode wins, entirely. After a successful
    SaveNodeUninitialized or SaveNode of a node, a successful SaveNode of a
    node with the same id leaves the tables that it would have left without
    the earlier call. *)
Theorem SaveNode_last_write_wins
    (f1 f2 f3 : nat → bool) (now1 now2 : Z) (n1 n2 : Node) (db : DB)
    (c1 c2 c3 : Conn) :
  ID n1 = ID n2 →
  run (SaveNodeUninitialized f1 now1 n1) db = (Ok tt, c1) ∨
  run (SaveNode f1 now1 n1) db = (Ok tt, c1) →
  run (SaveNode f2 now2 n2) (committed c1) = (Ok tt, c2) →
  run (SaveNode f3 now2 n2) db = (Ok tt, c3) →
  committed c2 = committed c3.
Proof.
  intros Hid Hrun1 Hrun2 Hrun3.
  apply SaveNode_run in Hrun2 as ->. apply SaveNode_run in Hrun3 as ->.
  destruct (stmt_save_node_after now1 now2 n1 n2 db Hid) as [Ht Hs].
  destruct Hrun1 as [Hrun1|Hrun1].
  - apply SaveNodeUninitialized_run in Hrun1 as ->. exact Ht.
  - apply SaveNode_run in Hrun1 as ->. exact Hs.
Qed.

Lemma SaveNode_last_write_wins_witness :
  committed (run (SaveNode no_faults 1800000500 (sample_node "A" "X" 5))
               (committed (run (SaveNode no_faults 1800000000
                                  (sample_node "A" "W" 1)) listed_DB).2)).2 =
  committed (run (SaveNode no_faults 1800000500 (sample_node "A" "X" 5))
               listed_DB).2.
Proof.
  apply (SaveNode_last_write_wins no_faults no_faults no_faults
           1800000000 1800000500 (sample_node "A" "W" 1)
           (sample_node "A" "X" 5) listed_DB
           (run (SaveNode no_faults 1800000000 (sample_node "A" "W" 1))
                listed_DB).2).
  - reflexivity.
  - right. vm_compute. reflexivity.
  - vm_compute. reflexivity.
  - vm_compute. reflexivity.
Defined.

(** X15: SaveNode and SaveNodeUninitialized write one row. Whether the run
    gets through or fails, every row of the nodes table under another id
    and the whole items table are as they were. *)
Theorem SaveNode_other_rows_unchanged
    (faults : nat → bool) (now : Z) (n : Node) (db : DB)
    (r : result unit) (c' : Conn) :
  run (SaveNode faults now n) db = (r, c') ∨
  run (SaveNodeUninitialized faults now n) db = (r, c') →
  (∀ id, id ≠ ID n → tbl_nodes (committed c') !! id = tbl_nodes db !! id) ∧
  tbl_items (committed c') = tbl_items db.
Proof.
  intros [Hrun|Hrun];
    [apply SaveNode_run in Hrun|apply SaveNodeUninitialized_run in Hrun];
    rewrite Hrun; (destruct r; [|done]); simpl;
    (split; [|done]); intros id Hne; by rewrite lookup_upsert_ne.
Qed.

Lemma SaveNode_other_rows_unchanged_witness :
  let c' := (run (SaveNode no_faults 1800000000 (sample_node "A" "X" 5))
                 synced_DB).2 in
  (∀ id, id ≠ "A" →
         tbl_nodes (committed c') !! id = tbl_nodes synced_DB !! id) ∧
  tbl_items (committed c') = tbl_items synced_DB.
Proof.
  intros c'.
  apply (SaveNode_other_rows_unchanged no_faults 1800000000
           (sample_node "A" "X" 5) synced_DB (Ok tt) c').
  left. vm_compute. reflexivity.
Defined.

(* ===================================================================== *)
(** ** Catalog syncs *)
(* ===================================================================== *)

Lemma tbl_nodes_replaced (o : string) (its : list Item) (db : DB) :
  tbl_nodes (apply_all (stmt_upsert_item o) its (stmt_delete_items o db))
    = tbl_nodes db.
Proof. by rewrite tbl_nodes_upserts. Qed.

Lemma last_with_hash_NoDup_iff (h : string) (its : list Item) (it : Item) :
  NoDup (map Hash its) →
  last_with_hash h its = Some it ↔ it ∈ its ∧ Hash it = h.
Proof.
  intros Hnd. split; [apply last_with_hash_Some|].
  intros [Hin <-]. by apply last_with_hash_NoDup.
Qed.

Lemma last_with_hash_Permutation (h : string) (its its' : list Item) :
  NoDup (map Hash its) → its ≡ₚ its' →
  last_with_hash h its = last_with_hash h its'.
Proof.
  intros Hnd Hperm.
  assert (NoDup (map Hash its')) as Hnd'.
  { change (NoDup (Hash <$> its')). change (NoDup (Hash <$> its)) in Hnd.
    by rewrite <- Hperm. }
  apply option_eq. intros it.
  rewrite !last_with_hash_NoDup_iff by done. by rewrite Hperm.
Qed.

(** X16: a catalog sync is idempotent. A successful AddItemsForNode followed
    by a successful AddItemsForNode of the same owner and items leaves the
    tables the first one left, rows under other owners included. *)
Theorem AddItemsForNode_idempotent
    (f1 f2 : nat → bool) (o : string) (its : list Item) (db : DB)
    (c1 c2 : Conn) :
  run (AddItemsForNode f1 o its) db = (Ok tt, c1) →
  run (AddItemsForNode f2 o its) (committed c1) = (Ok tt, c2) →
  committed c2 = committed c1.
Proof.
  intros Hrun1 Hrun2.
  apply AddItemsForNode_run in Hrun1 as [_ Hc1].
  apply AddItemsForNode_run in Hrun2 as [_ ->].
  rewrite Hc1. clear Hc1 c1.
  apply DB_eq; [by rewrite tbl_nodes_replaced|].
  apply map_eq. intros h. rewrite !lookup_replaced. unfold owner_at.
  destruct (last_with_hash h its) as [it|] eqn:Hlast.
  { by rewrite lookup_replaced, Hlast. }
  destruct (tbl_items db !! h) as [r|]; [|done].
  destruct (decide (items.owner r = o)) as [Ho|Ho]; [done|].
  by rewrite decide_False.
Qed.

Lemma AddItemsForNode_idempotent_witness :
  let c1 := (run (AddItemsForNode no_faults "A"
                    [sample_item "h1" "new title" ["a"];
                     sample_item "h3" "third" ["c"]]) stale_DB).2 in
  committed (run (AddItemsForNode no_faults "A"
                    [sample_item "h1" "new title" ["a"];
                     sample_item "h3" "third" ["c"]]) (committed c1)).2
  = committed c1.
Proof.
  intros c1.
  apply (AddItemsForNode_idempotent no_faults no_faults "A"
           [sample_item "h1" "new title" ["a"]; sample_item "h3" "third" ["c"]]
           stale_DB c1).
  - vm_compute. reflexivity.
  - vm_compute. reflexivity.
Defined.

(** X17: with pairwise distinct hashes the order of the items does not
    matter: two successful syncs of the same owner from the same tables,
    with the same items in different orders, leave the same tables. *)
Theorem AddItemsForNode_order_of_items
    (f1 f2 : nat → bool) (o : string) (its its' : list Item) (db : DB)
    (c1 c2 : Conn) :
  NoDup (map Hash its) →
  its ≡ₚ its' →
  run (AddItemsForNode f1 o its) db = (Ok tt, c1) →
  run (AddItemsForNode f2 o its') db = (Ok tt, c2) →
  committed c1 = committed c2.
Proof.
  intros Hnd Hperm Hrun1 Hrun2.
  apply AddItemsForNode_run in Hrun1 as [_ ->].
  apply AddItemsForNode_run in Hrun2 as [_ ->].
  apply DB_eq; [by rewrite !tbl_nodes_replaced|].
  apply map_eq. intros h. rewrite !lookup_replaced.
  by rewrite (last_with_hash_Permutation h its its' Hnd Hperm).
Qed.

Lemma AddItemsForNode_order_of_items_witness :
  committed (run (AddItemsForNode no_faults "A"
                    [sample_item "h1" "new title" ["a"];
                     sample_item "h3" "third" ["c"]]) stale_DB).2 =
  committed (run (AddItemsForNode no_faults "A"
                    [sample_item "h3" "third" ["c"];
                     sample_item "h1" "new title" ["a"]]) stale_DB).2.
Proof.
  apply (AddItemsForNode_order_of_items no_faults no_faults "A"
           [sample_item "h1" "new title" ["a"]; sample_item "h3" "third" ["c"]]
           [sample_item "h3" "third" ["c"]; sample_item "h1" "new title" ["a"]]
           stale_DB).
  - vm_compute. apply NoDup_cons. split.
    + intros [Heq|Hin%elem_of_nil]%elem_of_cons; [discriminate Heq|done].
    + apply NoDup_singleton.
  - apply Permutation_swap.
  - vm_compute. reflexivity.
  - vm_compute. reflexivity.
Defined.

(** X18: AddItemsForNode neither reads nor writes the nodes table. Whatever
    the outcome, the nodes table is as it was; and a sync for an owner that
    has no node row gets through like any other, leaving item rows whose
    owner is not a stored node. *)
Theorem AddItemsForNode_ignores_nodes
    (faults : nat → bool) (o : string) (its : list Item) (db : DB)
    (r : result unit) (c' : Conn) :
  run (AddItemsForNode faults o its) db = (r, c') →
  tbl_nodes (committed c') = tbl_nodes db ∧
  (r = Ok tt →
   tbl_nodes db !! o = None →
   ∀ it, it ∈ its → tbl_items db !! Hash it = None →
         ∃ row, tbl_items (committed c') !! Hash it = Some row ∧
                items.owner row = o ∧
                tbl_nodes (committed c') !! items.owner row = None).
Proof.
  intros Hrun. apply AddItemsForNode_run in Hrun as [_ ->].
  destruct r as [[]|e]; [|by split].
  split; [apply tbl_nodes_replaced|].
  intros _ Hunknown it Hin Hfree.
  destruct (last_with_hash_elem it its Hin) as [it' Hlast].
  rewrite lookup_replaced, Hlast. unfold owner_at. rewrite Hfree.
  eexists. split; [reflexivity|]. simpl. split; [done|].
  by rewrite tbl_nodes_replaced.
Qed.

(** Items for "Q", of whom the store has no node. *)
Lemma AddItemsForNode_ignores_nodes_witness :
  let c' := (run (AddItemsForNode no_faults "Q"
                    [sample_item "h5" "fifth" []]) synced_DB).2 in
  tbl_nodes (committed c') = tbl_nodes synced_DB ∧
  ∃ row, tbl_items (committed c') !! "h5" = Some row ∧
         items.owner row = "Q" ∧
         tbl_nodes (committed c') !! items.owner row = None.
Proof.
  intros c'.
  destruct (AddItemsForNode_ignores_nodes no_faults "Q"
              [sample_item "h5" "fifth" []] synced_DB (Ok tt) c')
    as [Hn Hrow].
  - vm_compute. reflexivity.
  - split; [exact Hn|].
    apply (Hrow eq_refl ltac:(vm_compute; reflexivity)
             (sample_item "h5" "fifth" [])); [|vm_compute; reflexivity].
    apply list_elem_of_here.
Defined.

(** X19: the three thumbnail URLs come back from the stored field. For every
    row a successful AddItemsForNode writes from an item whose tiny, small
    and medium URLs contain no comma, splitting the stored thumbnail at the
    commas gives exactly the three URLs, in that order, empty ones
    included. *)
Theorem AddItemsForNode_thumbnail_round_trip
    (faults : nat → bool) (o : string) (its : list Item) (db : DB)
    (c' : Conn) (h : string) (it : Item) :
  run (AddItemsForNode faults o its) db = (Ok tt, c') →
  last_with_hash h its = Some it →
  comma_free (Tiny (ItemThumbnail it)) = true →
  comma_free (Small (ItemThumbnail it)) = true →
  comma_free (Medium (ItemThumbnail it)) = true →
  ∃ r, tbl_items (committed c') !! h = Some r ∧
       split_commas (items.thumbnail r) =
         [Tiny (ItemThumbnail it); Small (ItemThumbnail it);
          Medium (ItemThumbnail it)].
Proof.
  intros Hrun Hlast Ht Hs Hm. apply AddItemsForNode_run in Hrun as [_ ->].
  rewrite lookup_replaced, Hlast. eexists. split; [reflexivity|]. simpl.
  rewrite !split_commas_app by done. by rewrite split_commas_comma_free.
Qed.

Lemma AddItemsForNode_thumbnail_round_trip_witness :
  let it := {| Hash := "h7"; Slug := "s"; Title := "t";
               Description := EmptyString;
               ItemThumbnail := {| Tiny := "zb2tiny"; Small := EmptyString;
                                   Medium := "zb2medium" |};
               Language := "en";
               ItemPrice := {| Amount := 1; CurrencyCode := "BTC" |};
               Categories := []; NSFW := false; ContractType := "SERVICE";
               ItemAverageRating := 0 |} in
  ∃ r, tbl_items (committed
         (run (AddItemsForNode no_faults "A" [it]) empty_DB).2) !! "h7"
         = Some r ∧
       split_commas (items.thumbnail r) = ["zb2tiny"; EmptyString; "zb2medium"].
Proof.
  intros it.
  apply (AddItemsForNode_thumbnail_round_trip no_faults "A" [it] empty_DB
           _ "h7" it).
  - vm_compute. reflexivity.
  - vm_compute. reflexivity.
  - reflexivity.
  - reflexivity.
  - reflexivity.
Defined.

(* ===================================================================== *)
(** ** What no history of calls does *)
(* ===================================================================== *)

(** A call commits its effect or nothing. *)
Lemma perform_cases (faults : nat → bool) (k : call) (db : DB) :
  perform faults k db = db ∨ perform faults k db = effect k db.
Proof.
  destruct k as [now n|now n|l|o its]; simpl.
  - destruct (run (SaveNodeUninitialized faults now n) db) as [r c'] eqn:Hrun.
    apply SaveNodeUninitialized_run in Hrun. simpl. rewrite Hrun.
    destruct r; auto.
  - destruct (run (SaveNode faults now n) db) as [r c'] eqn:Hrun.
    apply SaveNode_run in Hrun. simpl. rewrite Hrun. destruct r; auto.
  - destruct (run (AddUninitializedNodes faults l) db) as [r c'] eqn:Hrun.
    apply AddUninitializedNodes_run in Hrun. simpl. rewrite Hrun.
    destruct r; auto.
  - destruct (run (AddItemsForNode faults o its) db) as [r c'] eqn:Hrun.
    apply AddItemsForNode_run in Hrun as [_ Hrun]. simpl. rewrite Hrun.
    destruct r; auto.
Qed.

Lemma flags_kept_refl (t : gmap string nodes.row) : flags_kept t t.
Proof. intros id. by destruct (t !! id). Qed.

Lemma flags_kept_trans (t1 t2 t3 : gmap string nodes.row) :
  flags_kept t1 t2 → flags_kept t2 t3 → flags_kept t1 t3.
Proof.
  intros H12 H23 id. specialize (H12 id). specialize (H23 id).
  destruct (t3 !! id) as [r3|], (t2 !! id) as [r2|], (t1 !! id) as [r1|];
    try done; intuition congruence.
Qed.

Lemma effect_flags_kept (k : call) (db : DB) :
  flags_kept (tbl_nodes db) (tbl_nodes (effect k db)).
Proof.
  intros id. destruct k as [now n|now n|l|o its]; simpl.
  - destruct (decide (ID n = id)) as [<-|Hne].
    + rewrite lookup_upsert_eq. by destruct (tbl_nodes db !! ID n).
    + rewrite lookup_upsert_ne by done. by destruct (tbl_nodes db !! id).
  - destruct (decide (ID n = id)) as [<-|Hne].
    + rewrite lookup_upsert_eq. by destruct (tbl_nodes db !! ID n).
    + rewrite lookup_upsert_ne by done. by destruct (tbl_nodes db !! id).
  - rewrite lookup_enqueued. destruct (tbl_nodes db !! id); [done|].
    by case_decide.
  - rewrite tbl_nodes_replaced. by destruct (tbl_nodes db !! id).
Qed.

Lemma perform_all_flags_kept (ks : list ((nat → bool) * call)) (db : DB) :
  flags_kept (tbl_nodes db) (tbl_nodes (perform_all ks db)).
Proof.
  revert db. induction ks as [|[f k] ks IH]; intros db.
  - apply flags_kept_refl.
  - unfold perform_all in *. simpl.
    eapply flags_kept_trans; [|apply IH].
    destruct (perform_cases f k db) as [-> | ->];
      [apply flags_kept_refl|apply effect_flags_kept].
Qed.

Lemma tags_kept_refl (t : gmap string items.row) : tags_kept t t.
Proof. intros h r Hr. by left. Qed.

Lemma tags_kept_trans (t1 t2 t3 : gmap string items.row) :
  tags_kept t1 t2 → tags_kept t2 t3 → tags_kept t1 t3.
Proof.
  intros H12 H23 h r Hr. destruct (H23 h r Hr) as [Hr2|]; [|by right].
  by apply H12.
Qed.

Lemma effect_tags_kept (k : call) (db : DB) :
  tags_kept (tbl_items db) (tbl_items (effect k db)).
Proof.
  destruct k as [now n|now n|l|o its]; simpl;
    [apply tags_kept_refl|apply tags_kept_refl| |].
  - rewrite tbl_items_enqueued. apply tags_kept_refl.
  - intros h r. rewrite lookup_replaced.
    destruct (last_with_hash h its); [intros [= <-]; by right|].
    destruct (tbl_items db !! h); [|done]. case_decide; [done|]. by left.
Qed.

Lemma perform_all_tags_kept (ks : list ((nat → bool) * call)) (db : DB) :
  tags_kept (tbl_items db) (tbl_items (perform_all ks db)).
Proof.
  revert db. induction ks as [|[f k] ks IH]; intros db.
  - apply tags_kept_refl.
  - unfold perform_all in *. simpl.
    eapply tags_kept_trans; [|apply IH].
    destruct (perform_cases f k db) as [-> | ->];
      [apply tags_kept_refl|apply effect_tags_kept].
Qed.

(** X20: no call ever deletes a node or changes its [listed] or [banned].
    After any history of SaveNodeUninitialized, SaveNode,
    AddUninitializedNodes and AddItemsForNode, failed calls among them,
    every node that had a row has one, with the [listed] and [banned] it
    had. *)
Theorem history_keeps_nodes_and_flags
    (ks : list ((nat → bool) * call)) (db : DB) (id : string) (r : nodes.row) :
  tbl_nodes db !! id = Some r →
  ∃ r', tbl_nodes (perform_all ks db) !! id = Some r' ∧
        nodes.listed r' = nodes.listed r ∧
        nodes.banned r' = nodes.banned r.
Proof.
  intros Hr. pose proof (perform_all_flags_kept ks db id) as Hk.
  rewrite Hr in Hk.
  destruct (tbl_nodes (perform_all ks db) !! id) as [r'|]; [eauto|done].
Qed.

(** The listed node "A" through a touch, a failed save and a save. *)
Lemma history_keeps_nodes_and_flags_witness :
  ∃ r', tbl_nodes (perform_all
                     [ (no_faults, CallSaveNodeUninitialized 1700000000
                                     (sample_node "A" "a" 0));
                       (fault_at 1, CallSaveNode 1700000100
                                      (sample_node "A" "X" 5));
                       (no_faults, CallSaveNode 1700000200
                                     (sample_node "A" "X" 5)) ]
                     listed_DB) !! "A" = Some r' ∧
        nodes.listed r' = true ∧
        nodes.banned r' = false.
Proof.
  apply (history_keeps_nodes_and_flags _ listed_DB "A" listed_row).
  vm_compute. reflexivity.
Defined.

(** X21: the store lists and bans nobody. From tables in which no node is
    listed or banned, the empty ones of a new store among them, no history
    of calls reaches a table with a listed or a banned node. *)
Theorem history_lists_and_bans_nobody
    (ks : list ((nat → bool) * call)) (db : DB) :
  (∀ id r, tbl_nodes db !! id = Some r →
           nodes.listed r = false ∧ nodes.banned r = false) →
  ∀ id r, tbl_nodes (perform_all ks db) !! id = Some r →
          nodes.listed r = false ∧ nodes.banned r = false.
Proof.
  intros Hnone id r' Hr'. pose proof (perform_all_flags_kept ks db id) as Hk.
  rewrite Hr' in Hk. destruct (tbl_nodes db !! id) as [r|] eqn:Hr; [|done].
  destruct (Hnone id r Hr) as [Hl Hb]. destruct Hk as [-> ->]. done.
Qed.

(** Node "B" at the end of [sample_history], saved with a profile. *)
Lemma history_lists_and_bans_nobody_witness :
  ∃ r, tbl_nodes (perform_all sample_history empty_DB) !! "B" = Some r ∧
       nodes.name r = Some "Y" ∧
       nodes.listed r = false ∧ nodes.banned r = false.
Proof.
  eexists. split; [vm_compute; reflexivity|]. split; [reflexivity|].
  apply (history_lists_and_bans_nobody sample_history empty_DB) with (id := "B").
  - intros id r Hr. vm_compute in Hr. discriminate Hr.
  - vm_compute. reflexivity.
Defined.

(** X22: [tags] is never populated. From tables in which every item row has
    the empty [tags], the empty ones of a new store among them, no history
    of calls reaches a table with an item row whose [tags] is not empty. *)
Theorem history_never_populates_tags
    (ks : list ((nat → bool) * call)) (db : DB) :
  (∀ h r, tbl_items db !! h = Some r → items.tags r = EmptyString) →
  ∀ h r, tbl_items (perform_all ks db) !! h = Some r →
         items.tags r = EmptyString.
Proof.
  intros Hnone h r Hr.
  destruct (perform_all_tags_kept ks db h r Hr) as [Hold|]; [|done].
  by apply (Hnone h r).
Qed.

(** Item "h1" at the end of [sample_history]. *)
Lemma history_never_populates_tags_witness :
  ∃ r, tbl_items (perform_all sample_history empty_DB) !! "h1" = Some r ∧
       items.owner r = "A" ∧
       items.tags r = EmptyString.
Proof.
  eexists. split; [vm_compute; reflexivity|]. split; [reflexivity|].
  apply (history_never_populates_tags sample_history empty_DB) with (h := "h1").
  - intros h r Hr. vm_compute in Hr. discriminate Hr.
  - vm_compute. reflexivity.
Defined.

(** X23: without a tie the engine has no choice. When one stored node is
    strictly older than every other, GetNextNode returns that node, with its
    id and its time, in whatever order the engine produces the rows. *)
Theorem GetNextNode_unique_oldest
    (faults : nat → bool)
    (scan : gmap string nodes.row → list (string * nodes.row))
    (db : DB) (id : string) (r : nodes.row) :
  (∀ t, scan t ≡ₚ map_to_list t) →
  faults 0%nat = false →
  tbl_nodes db !! id = Some r →
  (∀ id' r', id' ≠ id → tbl_nodes db !! id' = Some r' →
             (nodes.lastUpdated r < nodes.lastUpdated r')%Z) →
  (run (GetNextNode faults scan) db).1 =
    Ok {| ID := id; LastCrawled := nodes.lastUpdated r;
          NodeProfile := zero_Profile |}.
Proof.
  intros Hscan H0 Hr Holdest. rewrite GetNextNode_run by done. simpl.
  pose proof (select_oldest scan Hscan (tbl_nodes db)) as Hsel.
  destruct (order_by_lastUpdated_limit_1 (scan (tbl_nodes db))) as [[id0 r0]|].
  - simpl in *. destruct Hsel as [Hr0 Hmin].
    destruct (decide (id0 = id)) as [->|Hne].
    + rewrite Hr in Hr0. by injection Hr0 as <-.
    + specialize (Holdest id0 r0 Hne Hr0). specialize (Hmin id r Hr). lia.
  - rewrite Hsel in Hr. by rewrite lookup_empty in Hr.
Qed.

(** "B" is the only never-crawled node of [frontier_DB]; the engine produces
    the rows in reverse key order. *)
Lemma GetNextNode_unique_oldest_witness :
  (run (GetNextNode no_faults (λ t, reverse (map_to_list t))) frontier_DB).1 =
    Ok {| ID := "B"; LastCrawled := never_crawled;
          NodeProfile := zero_Profile |}.
Proof.
  apply (GetNextNode_unique_oldest no_faults (λ t, reverse (map_to_list t))
           frontier_DB "B" (nodes.minimal never_crawled)).
  - intros t. apply reverse_Permutation.
  - reflexivity.
  - vm_compute. reflexivity.
  - intros id' r' Hne Hr'.
    assert (id' = "A" ∨ id' = "C") as [->| ->].
    { destruct (decide (id' = "A")) as [|Ha]; [by left|].
      destruct (decide (id' = "C")) as [|Hc]; [by right|].
      exfalso. revert Hr'. unfold frontier_DB. simpl.
      by rewrite !lookup_insert_ne, lookup_singleton_ne by done. }
    + vm_compute in Hr'. injection Hr' as <-. vm_compute. reflexivity.
    + vm_compute in Hr'. injection Hr' as <-. vm_compute. reflexivity.
Defined.
